(** * Ratio engine of the audit-opinion prediction app (src/main.py)

    A shallow embedding of [safe_div], [compute_ratios] and of the
    feature-selection / row-filtering part of the Streamlit script.

    Numbers.  A pandas cell of a float column is modelled by [cell]: a
    null ([NaN]), a signed infinity, or a finite value.  Finite values are
    exact rationals ([Qc]); rounding and overflow of binary64 are not part
    of this model, and the two zeros of binary64 are one value here (pandas'
    [replace(0, nan)] matches both of them).

    Tables.  A [DataFrame] is a row index and an ordered list of named
    columns; a [Series] is the list of the cells of one column.  All the
    series the script combines come from one table, so index alignment is
    positional. *)

From Stdlib Require Import QArith Qcanon.
From stdpp Require Import base option list strings numbers.

Local Open Scope Qc_scope.

(** ** Cells and their arithmetic *)

Inductive cell : Type :=
  | NaN
  | Inf (neg : bool)
  | Fin (q : Qc).

Global Instance cell_eq_dec : EqDecision cell.
Proof. solve_decision. Defined.

(** A decimal literal [n / d] of the source. *)
Definition dec (n : Z) (d : positive) : Qc := Q2Qc (n # d).

Definition Qc_neg (q : Qc) : bool := bool_decide (q < 0).

(** [pd.isna]: only the null counts, an infinity does not. *)
Definition isna (c : cell) : bool :=
  match c with NaN => true | _ => false end.

Definition is_zero (c : cell) : bool :=
  match c with Fin q => bool_decide (q = 0) | _ => false end.

Definition is_fin (c : cell) : Prop :=
  match c with Fin _ => True | _ => False end.

(** Null or finite: what a spreadsheet cell can hold. *)
Definition no_inf (c : cell) : Prop :=
  match c with Inf _ => False | _ => True end.

Definition fneg (a : cell) : cell :=
  match a with
  | NaN => NaN
  | Inf s => Inf (negb s)
  | Fin x => Fin (- x)
  end.

Definition fadd (a b : cell) : cell :=
  match a, b with
  | NaN, _ | _, NaN => NaN
  | Inf s, Inf t => if Bool.eqb s t then Inf s else NaN
  | Inf s, Fin _ | Fin _, Inf s => Inf s
  | Fin x, Fin y => Fin (x + y)
  end.

Definition fsub (a b : cell) : cell :=
  match a, b with
  | NaN, _ | _, NaN => NaN
  | Inf s, Inf t => if Bool.eqb s t then NaN else Inf s
  | Inf s, Fin _ => Inf s
  | Fin _, Inf t => Inf (negb t)
  | Fin x, Fin y => Fin (x - y)
  end.

Definition fmul (a b : cell) : cell :=
  match a, b with
  | NaN, _ | _, NaN => NaN
  | Inf s, Inf t => Inf (xorb s t)
  | Inf s, Fin y | Fin y, Inf s =>
      if bool_decide (y = 0) then NaN else Inf (xorb s (Qc_neg y))
  | Fin x, Fin y => Fin (x * y)
  end.

(** numpy's true division: a zero divisor gives an infinity (or the null
    for [0 / 0]), it does not raise. *)
Definition fdiv (a b : cell) : cell :=
  match a, b with
  | NaN, _ | _, NaN => NaN
  | Inf _, Inf _ => NaN
  | Inf s, Fin y => Inf (xorb s (Qc_neg y))
  | Fin _, Inf _ => Fin 0
  | Fin x, Fin y =>
      if bool_decide (y = 0)
      then (if bool_decide (x = 0) then NaN else Inf (Qc_neg x))
      else Fin (x / y)
  end.

(** What [replace(0, nan)] and [fillna(0)] do to one cell. *)
Definition zero_to_nan (c : cell) : cell := if is_zero c then NaN else c.
Definition nan_to_zero (c : cell) : cell := if isna c then Fin 0 else c.

(** ** Series *)

Abbreviation Series := (list cell).

Module Series.

Definition add (a b : Series) : Series := zip_with fadd a b.
Definition sub (a b : Series) : Series := zip_with fsub a b.
Definition truediv (a b : Series) : Series := zip_with fdiv a b.
Definition neg (a : Series) : Series := fneg <$> a.
(** [s * c] and [c * s] with a scalar [c]. *)
Definition mul (a : Series) (c : Qc) : Series := (λ x, fmul x (Fin c)) <$> a.
Definition rmul (c : Qc) (a : Series) : Series := (λ x, fmul (Fin c) x) <$> a.
(** [c - s] with a scalar [c]. *)
Definition rsub (c : Qc) (a : Series) : Series := (λ x, fsub (Fin c) x) <$> a.
(** [s.replace(0, np.nan)] *)
Definition replace_zero_nan (a : Series) : Series := zero_to_nan <$> a.
(** [s.fillna(0)] *)
Definition fillna_zero (a : Series) : Series := nan_to_zero <$> a.

End Series.

(** [safe_div], lines 49-56. *)
Definition safe_div (num denom : Series) : Series :=
  let denom_replaced := Series.replace_zero_nan denom in
  let result := Series.truediv num denom_replaced in
  Series.fillna_zero result.

(** [safe_div] on one row. *)
Definition cell_safe_div (n d : cell) : cell :=
  nan_to_zero (fdiv n (zero_to_nan d)).

(** ** Tables *)

Record DataFrame : Type := mkDF {
  index : list nat;
  columns : list (string * Series)
}.

Fixpoint col_lookup (k : string) (cols : list (string * Series)) : option Series :=
  match cols with
  | [] => None
  | (k', s) :: cols' => if String.eqb k k' then Some s else col_lookup k cols'
  end.

(** Assigning a column: an existing name keeps its place, a new one is
    appended. *)
Fixpoint set_col (k : string) (s : Series) (cols : list (string * Series))
    : list (string * Series) :=
  match cols with
  | [] => [(k, s)]
  | (k', s') :: cols' =>
      if String.eqb k k' then (k, s) :: cols' else (k', s') :: set_col k s cols'
  end.

(** ** The table being mutated, and exceptions *)

Inductive exn : Type :=
  | KeyError (key : string)
  | LabelError.

Inductive result (A : Type) : Type :=
  | Ok (a : A)
  | Raise (e : exn).
Arguments Ok {A} a.
Arguments Raise {A} e.

(** A computation on the one table [df] the script passes around: it may
    change the table in place and may raise. *)
Definition M (A : Type) : Type := DataFrame → DataFrame * result A.

Global Instance M_ret : MRet M := λ A a df, (df, Ok a).
Global Instance M_bind : MBind M := λ A B f m df,
  match m df with
  | (df', Ok a) => f a df'
  | (df', Raise e) => (df', Raise e)
  end.

(** [df[k]] *)
Definition getitem (k : string) : M Series := λ df,
  match col_lookup k (columns df) with
  | Some s => (df, Ok s)
  | None => (df, Raise (KeyError k))
  end.

(** [df[k] = s] *)
Definition setitem (k : string) (s : Series) : M unit := λ df,
  (mkDF (index df) (set_col k s (columns df)), Ok tt).

(** Operands are evaluated left to right, then the operator is applied. *)
Definition lift1 {A B} (f : A → B) (m : M A) : M B :=
  a ← m; mret (f a).
Definition lift2 {A B C} (f : A → B → C) (m1 : M A) (m2 : M B) : M C :=
  a ← m1; b ← m2; mret (f a b).

(** [df[k] = e]: the right-hand side first, then the assignment. *)
Definition assign (k : string) (e : M Series) : M unit :=
  v ← e; setitem k v.

Declare Scope series_scope.
Delimit Scope series_scope with series.
Notation "a + b" := (Series.add a b) : series_scope.
Notation "a - b" := (Series.sub a b) : series_scope.

(** ** [compute_ratios], lines 60-134 *)

Definition compute_ratios : M unit :=
  (* 2) common aggregates *)
  total_assets ← lift2 Series.add (getitem "Dönen Varlıklar") (getitem "Duran Varlıklar");
  total_liab ← lift2 Series.add (getitem "Kısa Vadeli Yükümlülükler")
                                (getitem "Uzun Vadeli Yükümlülükler");
  (* 3) liquidity *)
  assign "Cari Oran"
    (lift2 safe_div (getitem "Dönen Varlıklar") (getitem "Kısa Vadeli Yükümlülükler"));;
  assign "Asit Test Oranı"
    (lift2 safe_div
       (lift2 Series.sub
          (lift2 Series.sub (getitem "Dönen Varlıklar") (getitem "Stoklar"))
          (getitem "Diğer Dönen Varlıklar"))
       (getitem "Kısa Vadeli Yükümlülükler"));;
  assign "Nakit Oranı"
    (lift2 safe_div (getitem "Nakit ve Nakit Benzerleri")
                    (getitem "Kısa Vadeli Yükümlülükler"));;
  (* 4) profitability and margins *)
  assign "Faaliyet Kar Marjı"
    (lift2 safe_div (lift1 (λ s, Series.mul s (dec 100 1)) (getitem "FAALİYET KARI (ZARARI)"))
                    (getitem "Satış Gelirleri"));;
  assign "Esas Faaliyet Kar Marjı"
    (lift2 safe_div (lift1 (λ s, Series.mul s (dec 100 1)) (getitem "Net Faaliyet Kar/Zararı"))
                    (getitem "Satış Gelirleri"));;
  assign "Brüt Kar Marjı (%)"
    (lift2 safe_div
       (lift1 (λ s, Series.mul s (dec 100 1)) (getitem "Ticari Faaliyetlerden Brüt Kar (Zarar)"))
       (getitem "Satış Gelirleri"));;
  assign "Net Kar Marjı"
    (lift2 safe_div (lift1 (λ s, Series.mul s (dec 100 1)) (getitem "Dönem Net Kar/Zararı"))
                    (getitem "Satış Gelirleri"));;
  assign "FAVÖK / Kısa Vade Borç"
    (lift2 safe_div (getitem "FAALİYET KARI (ZARARI)") (getitem "Kısa Vadeli Yükümlülükler"));;
  (* 5) turnover *)
  assign "Aktif Devir Hızı"
    (lift2 safe_div (getitem "Satış Gelirleri") (mret total_assets));;
  assign "Alacak Devir Hızı"
    (lift2 safe_div (getitem "Satış Gelirleri") (getitem "Ticari Alacaklar"));;
  assign "Dönen Varlıklar Devir Hızı"
    (lift2 safe_div (getitem "Dönen Varlıklar") (getitem "Satış Gelirleri"));;
  assign "Ticari Borçlar Devir Hızı"
    (lift1 Series.neg
       (lift2 safe_div (getitem "Satışların Maliyeti (-)") (getitem "Ticari Borçlar")));;
  assign "Stok Devir Hızı"
    (lift1 Series.neg
       (lift2 safe_div (getitem "Satışların Maliyeti (-)") (getitem "Stoklar")));;
  (* 6) capital structure *)
  assign "Borç Kaynak Oranı"
    (lift1 (λ s, Series.mul s (dec 100 1))
       (lift2 safe_div (mret total_liab) (getitem "Toplam Özkaynaklar")));;
  assign "Finansal Kaldıraç"
    (lift1 (λ s, Series.mul s (dec 100 1))
       (lift2 safe_div (mret total_liab) (mret total_assets)));;
  assign "Özsermaye / Aktif"
    (lift2 safe_div (getitem "Toplam Özkaynaklar") (mret total_assets));;
  assign "Özsermaye / Maddi Duran Varlıklar"
    (lift2 safe_div (getitem "Toplam Özkaynaklar") (getitem "Maddi Duran Varlıklar"));;
  assign "Duran Varlıklar / Maddi Özkaynak"
    (lift2 safe_div (getitem "Duran Varlıklar")
       (lift2 Series.sub (getitem "Toplam Özkaynaklar")
                         (getitem "Maddi Olmayan Duran Varlıklar")));;
  assign "Duran Varlıklar / Aktif "
    (lift2 safe_div (lift1 (λ s, Series.mul s (dec 100 1)) (getitem "Duran Varlıklar"))
                    (mret total_assets));;
  assign "Dönen Varlıklar / Aktif (%)"
    (lift2 safe_div (lift1 (λ s, Series.mul s (dec 100 1)) (getitem "Dönen Varlıklar"))
                    (mret total_assets));;
  (* 7) short-term debt focus *)
  assign "Kısa Vade Borç / Aktif"
    (lift2 safe_div (getitem "Kısa Vadeli Yükümlülükler") (mret total_assets));;
  assign "Kısa Vade Borç / Dönen Varlık"
    (lift2 safe_div (getitem "Kısa Vadeli Yükümlülükler") (getitem "Dönen Varlıklar"));;
  assign "Kısa Vade Borç / Özsermaye"
    (lift2 safe_div (getitem "Kısa Vadeli Yükümlülükler") (getitem "Toplam Özkaynaklar"));;
  assign "Kısa Vade Borç / Toplam Borç"
    (lift2 safe_div (getitem "Kısa Vadeli Yükümlülükler") (mret total_liab));;
  assign "Net Satışlar / Kısa Vade Borç"
    (lift2 safe_div (getitem "Satış Gelirleri") (getitem "Kısa Vadeli Yükümlülükler"));;
  assign "Esas Faaliyet Karı / Kısa Vadeli Borç"
    (lift2 safe_div (getitem "Net Faaliyet Kar/Zararı")
                    (getitem "Kısa Vadeli Yükümlülükler"));;
  (* 8) misc. profitability *)
  assign "Aktif Karlılık (%)"
    (lift2 safe_div (lift1 (λ s, Series.mul s (dec 100 1)) (getitem "Dönem Net Kar/Zararı"))
                    (mret total_assets));;
  assign "ROCE Oranı"
    (lift2 safe_div (lift1 (λ s, Series.mul s (dec 100 1)) (getitem "FAALİYET KARI (ZARARI)"))
                    (mret total_assets));;
  assign "Finansman Gider / Net Satış"
    (lift2 safe_div (getitem "Finansman Giderleri") (getitem "Satış Gelirleri"));;
  (* 9) scoring models: Altman Z inputs *)
  X1 ← lift2 safe_div
         (lift2 Series.sub (getitem "Dönen Varlıklar") (getitem "Kısa Vadeli Yükümlülükler"))
         (mret total_assets);
  X2 ← lift2 safe_div
         (lift2 Series.add (getitem "Geçmiş Yıllar Kar/Zararları")
                           (getitem "Dönem Net Kar/Zararı"))
         (mret total_assets);
  X3 ← lift2 safe_div (getitem "SÜRDÜRÜLEN FAALİYETLER VERGİ ÖNCESİ KARI (ZARARI)")
                      (mret total_assets);
  X4 ← lift2 safe_div (getitem "Toplam Özkaynaklar") (mret total_liab);
  X5 ← lift2 safe_div (getitem "Satış Gelirleri") (mret total_assets);
  assign "Altman Z-Skoru"
    (mret (Series.rmul (dec 12 10) X1 + Series.rmul (dec 14 10) X2 + Series.rmul (dec 33 10) X3 + Series.rmul (dec 6 10) X4 + X5)%series);;
  (* Zmijewski *)
  Z1 ← lift2 safe_div (getitem "Dönem Net Kar/Zararı") (mret total_assets);
  Z2 ← lift2 safe_div (mret total_liab) (mret total_assets);
  Z3 ← lift2 safe_div (getitem "Dönen Varlıklar") (getitem "Kısa Vadeli Yükümlülükler");
  assign "Zmijewski Skoru"
    (mret (Series.rsub (dec (-43) 10) (Series.rmul (dec 45 10) Z1) + Series.rmul (dec 57 10) Z2 - Series.rmul (dec 4 1000) Z3)%series);;
  (* L-model *)
  L6 ← lift2 safe_div
         (lift2 safe_div (getitem "Nakit ve Nakit Benzerleri")
                         (getitem "Kısa Vadeli Yükümlülükler"))
         (mret total_liab);
  L7 ← lift2 safe_div (mret total_liab) (mret total_assets);
  assign "L Model Skoru"
    (mret (Series.rmul (dec (-113) 1000) X1 + Series.rmul (dec 238 1000) X2 - Series.rmul (dec 52 1000) X3
           - Series.rmul (dec 51 1000) X4 + Series.rmul (dec 11 1000) X5 + Series.rmul (dec 729 1000) L6
           - Series.rmul (dec 639 1000) L7)%series).

(** The raw columns the engine reads, in the order of their first read. *)
Definition raw_fields : list string :=
  [ "Dönen Varlıklar"; "Duran Varlıklar"; "Kısa Vadeli Yükümlülükler";
    "Uzun Vadeli Yükümlülükler"; "Stoklar"; "Diğer Dönen Varlıklar";
    "Nakit ve Nakit Benzerleri"; "FAALİYET KARI (ZARARI)"; "Satış Gelirleri";
    "Net Faaliyet Kar/Zararı"; "Ticari Faaliyetlerden Brüt Kar (Zarar)";
    "Dönem Net Kar/Zararı"; "Ticari Alacaklar"; "Satışların Maliyeti (-)";
    "Ticari Borçlar"; "Toplam Özkaynaklar"; "Maddi Duran Varlıklar";
    "Maddi Olmayan Duran Varlıklar"; "Finansman Giderleri";
    "Geçmiş Yıllar Kar/Zararları";
    "SÜRDÜRÜLEN FAALİYETLER VERGİ ÖNCESİ KARI (ZARARI)" ].

(** The engine run on a table that holds exactly the raw columns [raw]:
    the assignments it performs, in program order. *)
Definition raw_table (raw : string → Series) : DataFrame :=
  mkDF [] ((λ k, (k, raw k)) <$> raw_fields).

Definition engine_log (raw : string → Series) : list (string * Series) :=
  Eval cbv [compute_ratios raw_table raw_fields mbind M_bind mret M_ret lift1 lift2
            assign getitem setitem col_lookup set_col columns index fst snd
            fmap list_fmap drop length String.eqb Ascii.eqb Bool.eqb andb]
  in drop (length raw_fields) (columns (compute_ratios (raw_table raw)).1).

(** ** Feature selection, row filtering and prediction, lines 172-197 *)

(** The 32 features the model expects, lines 29-43. *)
Definition SELECTED_FEATS : list string :=
  [ "Altman Z-Skoru"; "Finansal Kaldıraç"; "Nakit Oranı"; "Aktif Devir Hızı";
    "L Model Skoru"; "Zmijewski Skoru"; "Asit Test Oranı";
    "Özsermaye / Maddi Duran Varlıklar"; "Faaliyet Kar Marjı";
    "Duran Varlıklar / Maddi Özkaynak"; "Ticari Borçlar Devir Hızı";
    "Stok Devir Hızı"; "Brüt Kar Marjı (%)"; "Cari Oran";
    "Esas Faaliyet Karı / Kısa Vadeli Borç"; "Esas Faaliyet Kar Marjı";
    "Özsermaye / Aktif"; "Alacak Devir Hızı"; "Borç Kaynak Oranı";
    "Net Kar Marjı"; "Net Satışlar / Kısa Vade Borç";
    "Kısa Vade Borç / Özsermaye"; "Kısa Vade Borç / Toplam Borç";
    "Kısa Vade Borç / Aktif"; "Kısa Vade Borç / Dönen Varlık";
    "FAVÖK / Kısa Vade Borç"; "Duran Varlıklar / Aktif ";
    "Dönen Varlıklar / Aktif (%)"; "Dönen Varlıklar Devir Hızı";
    "Aktif Karlılık (%)"; "ROCE Oranı"; "Finansman Gider / Net Satış" ].

Definition MODEL_PATH : string := "slim_xgb.joblib".

(** The two messages shown with [st.error] before [st.stop()]. *)
Definition NO_ROWS : string := "Hiç analiz edilebilir satır kalmadı.".
Definition NO_MODEL : string := "Model dosyası bulunamadı: " +:+ MODEL_PATH.

(** [df[names]]: the named columns, in the order asked for; a missing
    name raises. *)
Fixpoint select_columns (names : list string) (cols : list (string * Series))
    : result (list (string * Series)) :=
  match names with
  | [] => Ok []
  | k :: names' =>
      match col_lookup k cols with
      | None => Raise (KeyError k)
      | Some s =>
          match select_columns names' cols with
          | Ok r => Ok ((k, s) :: r)
          | Raise e => Raise e
          end
      end
  end.

Definition select (names : list string) (df : DataFrame) : result DataFrame :=
  match select_columns names (columns df) with
  | Ok cols => Ok (mkDF (index df) cols)
  | Raise e => Raise e
  end.

(** The cell of a column at a row position, and the cells of one row. *)
Definition cell_of (s : Series) (i : nat) : cell := default NaN (s !! i).
Definition row_cells (cols : list (string * Series)) (i : nat) : list cell :=
  (λ kv, cell_of kv.2 i) <$> cols.

(** [df.isna().any().any()] *)
Definition any_isna (df : DataFrame) : bool :=
  existsb (λ kv, existsb isna kv.2) (columns df).

(** The rows at the positions [ps], in that order. *)
Definition take_rows {A} (ps : list nat) (l : list A) : list A :=
  omap (λ p, l !! p) ps.

(** [df.dropna()]: the rows without any null, by position. *)
Definition dropna (df : DataFrame) : DataFrame :=
  let kept := filter (λ i, existsb isna (row_cells (columns df) i) = false)
                     (seq 0 (length (index df))) in
  mkDF (take_rows kept (index df))
       ((λ kv, (kv.1, take_rows kept kv.2)) <$> columns df).

(** Lines 177-179. *)
Definition filter_rows (model_input : DataFrame) : DataFrame :=
  if any_isna model_input then dropna model_input else model_input.

(** [df.empty]: some axis has length 0. *)
Definition empty (df : DataFrame) : bool :=
  match index df, columns df with
  | _ :: _, _ :: _ => false
  | _, _ => true
  end.

Fixpoint position (l : nat) (idx : list nat) : option nat :=
  match idx with
  | [] => None
  | l' :: idx' => if decide (l = l') then Some 0%nat else S <$> position l idx'
  end.

(** [df.loc[labels]]: the rows with these labels; an unknown label raises. *)
Definition loc (labels : list nat) (df : DataFrame) : result DataFrame :=
  match mapM (λ l, position l (index df)) labels with
  | Some ps => Ok (mkDF labels ((λ kv, (kv.1, take_rows ps kv.2)) <$> columns df))
  | None => Raise LabelError
  end.

(** How a run of the script ends: an exception nobody catches, a halt
    after [st.error], or the predictions.  [warned] records whether the
    "rows skipped" warning was shown. *)
Inductive outcome : Type :=
  | Uncaught (e : exn)
  | Stopped (warned : bool) (message : string)
  | Predicted (warned : bool) (out_df : DataFrame) (labels : list string).

(** The script from line 172 on, for the table [raw_df] read from the
    sheet.  [model] is the content of the model file when it can be
    loaded: the labels it predicts for a feature table.  [enriched] is
    [raw_df] itself, mutated by the engine. *)
Definition app (model : option (DataFrame → list string)) (raw_df : DataFrame)
    : outcome :=
  match compute_ratios raw_df with
  | (_, Raise e) => Uncaught e
  | (enriched, Ok _) =>
      match select SELECTED_FEATS enriched with
      | Raise e => Uncaught e
      | Ok model_input =>
          let warned := any_isna model_input in
          let model_input := filter_rows model_input in
          if empty model_input
          then Stopped warned NO_ROWS
          else
            match model with
            | None => Stopped warned NO_MODEL
            | Some predict =>
                let pred_label := predict model_input in
                match loc (index model_input) enriched with
                | Raise e => Uncaught e
                | Ok out_df => Predicted warned out_df pred_label
                end
            end
      end
  end.

(** ** Views used by the statements *)

(** The cell of column [k] at row position [i], when both exist. *)
Definition cell_at (df : DataFrame) (k : string) (i : nat) : option cell :=
  s ← col_lookup k (columns df); s !! i.

(** Every column is as long as the index. *)
Definition wf (df : DataFrame) : Prop :=
  Forall (λ kv, length kv.2 = length (index df)) (columns df).

(** The rows of a table: label and cells, in index order. *)
Definition row_at (df : DataFrame) (p : nat) : nat * list cell :=
  (default 0%nat (index df !! p), row_cells (columns df) p).
Definition rows (df : DataFrame) : list (nat * list cell) :=
  row_at df <$> seq 0 (length (index df)).

(** The columns after a sequence of assignments, most recent first. *)
Definition apply_writes (ws : list (string * Series)) (cols : list (string * Series))
    : list (string * Series) :=
  foldr (λ kv c, set_col kv.1 kv.2 c) cols ws.

(** A column of [n] cells that all satisfy [P]. *)
Definition column_of (n : nat) (P : cell → Prop) (s : Series) : Prop :=
  length s = n ∧ Forall P s.

(** ** The scoring formulas as the specification words them

    One row of raw values [r], a cell per raw field name; every quotient is
    the null-safe division of that row. *)

Module Spec.

(** numerator / denominator if the denominator is non-zero and non-null,
    else 0 *)
Definition null_safe_div (n d : cell) : cell :=
  if is_zero d || isna d then Fin 0 else fdiv n d.

Definition total_assets (r : string → cell) : cell :=
  fadd (r "Dönen Varlıklar") (r "Duran Varlıklar").
Definition total_liabilities (r : string → cell) : cell :=
  fadd (r "Kısa Vadeli Yükümlülükler") (r "Uzun Vadeli Yükümlülükler").

Definition X1 (r : string → cell) : cell :=
  cell_safe_div (fsub (r "Dönen Varlıklar") (r "Kısa Vadeli Yükümlülükler"))
                (total_assets r).
Definition X2 (r : string → cell) : cell :=
  cell_safe_div (fadd (r "Geçmiş Yıllar Kar/Zararları") (r "Dönem Net Kar/Zararı"))
                (total_assets r).
Definition X3 (r : string → cell) : cell :=
  cell_safe_div (r "SÜRDÜRÜLEN FAALİYETLER VERGİ ÖNCESİ KARI (ZARARI)")
                (total_assets r).
Definition X4 (r : string → cell) : cell :=
  cell_safe_div (r "Toplam Özkaynaklar") (total_liabilities r).
Definition X5 (r : string → cell) : cell :=
  cell_safe_div (r "Satış Gelirleri") (total_assets r).

(** 1.2·X1 + 1.4·X2 + 3.3·X3 + 0.6·X4 + X5 *)
Definition altman_z (r : string → cell) : cell :=
  fadd (fadd (fadd (fadd (fmul (Fin (dec 12 10)) (X1 r))
                         (fmul (Fin (dec 14 10)) (X2 r)))
                   (fmul (Fin (dec 33 10)) (X3 r)))
             (fmul (Fin (dec 6 10)) (X4 r)))
       (X5 r).

Definition Z1 (r : string → cell) : cell :=
  cell_safe_div (r "Dönem Net Kar/Zararı") (total_assets r).
Definition Z2 (r : string → cell) : cell :=
  cell_safe_div (total_liabilities r) (total_assets r).
Definition Z3 (r : string → cell) : cell :=
  cell_safe_div (r "Dönen Varlıklar") (r "Kısa Vadeli Yükümlülükler").

(** −4.3 − 4.5·Z1 + 5.7·Z2 − 0.004·Z3 *)
Definition zmijewski (z1 z2 z3 : cell) : cell :=
  fsub (fadd (fsub (Fin (dec (-43) 10)) (fmul (Fin (dec 45 10)) z1))
             (fmul (Fin (dec 57 10)) z2))
       (fmul (Fin (dec 4 1000)) z3).

(** −cost of sales / trade payables, −cost of sales / inventories *)
Definition payables_turnover (r : string → cell) : cell :=
  fneg (cell_safe_div (r "Satışların Maliyeti (-)") (r "Ticari Borçlar")).
Definition inventory_turnover (r : string → cell) : cell :=
  fneg (cell_safe_div (r "Satışların Maliyeti (-)") (r "Stoklar")).

End Spec.

(** ** A sample table

    Row 0 is the scenario of the specification (total assets 200, total
    liabilities 120, cost of sales −100, trade payables 50); row 1 has a
    null numerator, a null divisor and zero divisors; row 2 has numbers
    only, with every divisor of the engine equal to zero. *)
Definition num (z : Z) : cell := Fin (dec z 1).
Arguments num z%_Z.

Definition sample_df : DataFrame :=
  mkDF [0; 1; 2]%nat
    [ ("Dönen Varlıklar", [num 100; NaN; num 0]);
      ("Duran Varlıklar", [num 100; num 0; num 0]);
      ("Kısa Vadeli Yükümlülükler", [num 50; num 40; num 0]);
      ("Uzun Vadeli Yükümlülükler", [num 70; num (-40); num 0]);
      ("Stoklar", [num 20; num 0; num 0]);
      ("Diğer Dönen Varlıklar", [num 5; num 1; num 3]);
      ("Nakit ve Nakit Benzerleri", [num 10; num 2; num 4]);
      ("FAALİYET KARI (ZARARI)", [num 30; num 3; num (-5)]);
      ("Satış Gelirleri", [num 400; NaN; num 0]);
      ("Net Faaliyet Kar/Zararı", [num 25; num 4; num 6]);
      ("Ticari Faaliyetlerden Brüt Kar (Zarar)", [num 300; num 5; num 7]);
      ("Dönem Net Kar/Zararı", [num 10; num (-6); num (-8)]);
      ("Ticari Alacaklar", [num 80; num 7; num 0]);
      ("Satışların Maliyeti (-)", [num (-100); num (-8); num (-9)]);
      ("Ticari Borçlar", [num 50; num 0; num 0]);
      ("Toplam Özkaynaklar", [num 80; num 9; num 15]);
      ("Maddi Duran Varlıklar", [num 60; num 10; num 0]);
      ("Maddi Olmayan Duran Varlıklar", [num 15; num 9; num 15]);
      ("Finansman Giderleri", [num (-12); num 11; num (-1)]);
      ("Geçmiş Yıllar Kar/Zararları", [num 40; num 12; num 2]);
      ("SÜRDÜRÜLEN FAALİYETLER VERGİ ÖNCESİ KARI (ZARARI)", [num 14; num 13; num (-3)]) ].

Definition sample_row (i : nat) (k : string) : cell :=
  default NaN (cell_at sample_df k i).

(** The concrete scenario of the specification: current assets 100, fixed
    assets 50, short-term liabilities 40 (row 0) or 0 (row 1), no long-term
    liabilities; every other raw field is 1. *)
Definition scenario_df : DataFrame :=
  mkDF [0; 1]%nat
    ((λ k, (k, if String.eqb k "Dönen Varlıklar" then [num 100; num 100]
               else if String.eqb k "Duran Varlıklar" then [num 50; num 50]
               else if String.eqb k "Kısa Vadeli Yükümlülükler" then [num 40; num 0]
               else if String.eqb k "Uzun Vadeli Yükümlülükler" then [num 0; num 0]
               else [num 1; num 1]))
     <$> raw_fields).

(** The sample table without its inventories column. *)
Definition sample_without_inventories : DataFrame :=
  mkDF (index sample_df)
       (filter (λ kv, kv.1 ≠ "Stoklar") (columns sample_df)).

(** A feature table whose middle row has nulls. *)
Definition feature_table_with_nulls : DataFrame :=
  mkDF [0; 1; 2]%nat ((λ k, (k, [num 1; NaN; num 2])) <$> SELECTED_FEATS).

(** ** Invariants of the engine *)

(** [m] keeps the property [I] of the table, whether it returns or raises,
    and a value it returns satisfies [Q]. *)
Definition preserves {A} (I : DataFrame → Prop) (Q : A → Prop) (m : M A) : Prop :=
  ∀ df, I df → I (m df).1 ∧ ∀ a, (m df).2 = Ok a → Q a.

(** The table [df] differs from [df0] in the columns named in [names] at
    most. *)
Definition same_outside (names : list string) (df0 df : DataFrame) : Prop :=
  index df = index df0
  ∧ ∀ k, k ∉ names → col_lookup k (columns df) = col_lookup k (columns df0).

(** A table of [n] rows whose columns all have [n] cells. *)
Definition rectangular (n : nat) (df : DataFrame) : Prop :=
  length (index df) = n ∧ Forall (λ kv, length kv.2 = n) (columns df).

(** ** The L-model score of one row *)

Module Row.

(** Lines 128-132 on one row: L6 is a quotient of a quotient, L7 the
    quotient Z2 of the Zmijewski score. *)
Definition L6 (r : string → cell) : cell :=
  cell_safe_div (cell_safe_div (r "Nakit ve Nakit Benzerleri")
                               (r "Kısa Vadeli Yükümlülükler"))
                (Spec.total_liabilities r).
Definition L7 (r : string → cell) : cell :=
  cell_safe_div (Spec.total_liabilities r) (Spec.total_assets r).

Definition l_model (r : string → cell) : cell :=
  fsub (fadd (fadd (fsub (fsub (fadd (fmul (Fin (dec (-113) 1000)) (Spec.X1 r))
                                     (fmul (Fin (dec 238 1000)) (Spec.X2 r)))
                               (fmul (Fin (dec 52 1000)) (Spec.X3 r)))
                         (fmul (Fin (dec 51 1000)) (Spec.X4 r)))
                   (fmul (Fin (dec 11 1000)) (Spec.X5 r)))
             (fmul (Fin (dec 729 1000)) (L6 r)))
       (fmul (Fin (dec 639 1000)) (L7 r)).

End Row.

(** The names of the six ratios over short-term liabilities. *)
Definition SHORT_TERM_RATIOS : list string :=
  [ "Cari Oran"; "Asit Test Oranı"; "Nakit Oranı"; "FAVÖK / Kısa Vade Borç";
    "Net Satışlar / Kısa Vade Borç"; "Esas Faaliyet Karı / Kısa Vadeli Borç" ].

(** ** From the sheet to the table (lines 156-165)

    [raw_vert], the sheet read without a header: column 0 holds the field
    labels, as text, and each of the other [n_values] columns holds one
    record.  A line is a row of the sheet: its label and its values.  A
    sheet without any column, where [set_index(0)] raises, and labels that
    are not text are not represented. *)
Record Sheet : Type := mkSheet {
  n_values : nat;
  lines : list (string * Series)
}.

(** pandas frames are rectangular: every line has [n_values] values. *)
Definition sheet_ok (raw_vert : Sheet) : Prop :=
  Forall (λ kv, length kv.2 = n_values raw_vert) (lines raw_vert).

(** [.set_index(0).T.rename_axis(None).reset_index(drop=True)]: the labels
    become the column names, the records the rows, numbered from 0. *)
Definition transpose (raw_vert : Sheet) : DataFrame :=
  mkDF (seq 0 (n_values raw_vert)) (lines raw_vert).

(** [Index.duplicated()]: true at a name seen before. *)
Fixpoint duplicated_from (seen names : list string) : list bool :=
  match names with
  | [] => []
  | k :: names' => bool_decide (k ∈ seen) :: duplicated_from (k :: seen) names'
  end.
Definition duplicated (names : list string) : list bool := duplicated_from [] names.

(** [df.loc[:, mask]] *)
Definition mask_columns (mask : list bool) (cols : list (string * Series))
    : list (string * Series) :=
  snd <$> filter (λ p, p.1 = true) (zip mask cols).
Definition loc_columns (mask : list bool) (df : DataFrame) : DataFrame :=
  mkDF (index df) (mask_columns mask (columns df)).

Section read_sheet.
(** [str.strip] *)
Variable strip : string → string.

(** [df.columns = df.columns.str.strip()] *)
Definition strip_columns (df : DataFrame) : DataFrame :=
  mkDF (index df) ((λ kv, (strip kv.1, kv.2)) <$> columns df).

Definition read_sheet (raw_vert : Sheet) : DataFrame :=
  let raw_df := strip_columns (transpose raw_vert) in
  loc_columns (negb <$> duplicated (fst <$> columns raw_df)) raw_df.

End read_sheet.

(** Stripping of blanks, for the examples. *)
Fixpoint lstrip_blanks (s : list Ascii.ascii) : list Ascii.ascii :=
  match s with
  | c :: s' => if Ascii.eqb c (Ascii.ascii_of_nat 32) then lstrip_blanks s' else s
  | [] => []
  end.
Definition strip_blanks (s : string) : string :=
  String.string_of_list_ascii
    (reverse (lstrip_blanks (reverse (lstrip_blanks (String.list_ascii_of_string s))))).

(** ** More sample tables *)

(** A sheet with padded labels, one of them twice. *)
Definition sample_sheet : Sheet :=
  mkSheet 2 [ (" Stoklar", [num 1; num 2]);
              ("Ticari Borçlar ", [num 3; NaN]);
              ("Stoklar  ", [num 5; num 6]) ].

(** The sample table upside down. *)
Definition sample_reversed : DataFrame :=
  mkDF (index sample_df) ((λ kv, (kv.1, reverse kv.2)) <$> columns sample_df).

(** A table whose second row is blank. *)
Definition blank_row_df : DataFrame :=
  mkDF [0; 1]%nat ((λ k, (k, [num 1; NaN])) <$> raw_fields).

(** The sample table with an infinite pre-tax profit and infinitely
    negative sales in row 0: the Altman score of that row is ∞ − ∞. *)
Definition sample_with_infinities : DataFrame :=
  mkDF (index sample_df)
       ((λ kv, (kv.1,
                if String.eqb kv.1 "SÜRDÜRÜLEN FAALİYETLER VERGİ ÖNCESİ KARI (ZARARI)"
                then <[0%nat := Inf false]> kv.2
                else if String.eqb kv.1 "Satış Gelirleri"
                     then <[0%nat := Inf true]> kv.2
                     else kv.2)) <$> columns sample_df).

(** A model that answers "Olumlu" for every row. *)
Definition constant_model : DataFrame → list string :=
  λ model_input, (λ _, "Olumlu") <$> index model_input.

(** ** Running the engine symbolically *)

Lemma col_lookup_set_col k k' v cols :
  col_lookup k (set_col k' v cols)
  = if String.eqb k k' then Some v else col_lookup k cols.
Proof.
  induction cols as [|[k0 s0] cols IH]; simpl.
  - reflexivity.
  - destruct (String.eqb_spec k' k0) as [->|Hne]; simpl.
    + destruct (String.eqb k k0); reflexivity.
    + rewrite IH. destruct (String.eqb_spec k k0) as [->|Hne']; [|reflexivity].
      destruct (String.eqb_spec k0 k'); congruence.
Qed.

Lemma col_lookup_apply_writes k ws cols :
  col_lookup k (apply_writes ws cols)
  = match col_lookup k ws with Some v => Some v | None => col_lookup k cols end.
Proof.
  induction ws as [|[k' v] ws IH]; simpl; [reflexivity|].
  rewrite col_lookup_set_col, IH. destruct (String.eqb k k'); reflexivity.
Qed.

Section run.
Context {A B : Type}.
Implicit Types (st : DataFrame) (m : M A) (f : A → M B).

Lemma run_bind_ok m f st st1 a R :
  m st = (st1, Ok a) → f a st1 = R → (m ≫= f) st = R.
Proof. unfold mbind, M_bind. intros -> ?. assumption. Qed.

Lemma run_bind_raise m f st st1 e :
  m st = (st1, Raise e) → (m ≫= f) st = (st1, Raise e).
Proof. unfold mbind, M_bind. intros ->. reflexivity. Qed.
End run.

Lemma run_getitem_ok k idx ws cols s :
  col_lookup k ws = None → col_lookup k cols = Some s →
  getitem k (mkDF idx (apply_writes ws cols)) = (mkDF idx (apply_writes ws cols), Ok s).
Proof.
  intros Hws Hs. unfold getitem; simpl.
  rewrite col_lookup_apply_writes, Hws, Hs. reflexivity.
Qed.

Lemma run_getitem_raise k idx ws cols :
  col_lookup k ws = None → col_lookup k cols = None →
  getitem k (mkDF idx (apply_writes ws cols))
  = (mkDF idx (apply_writes ws cols), Raise (KeyError k)).
Proof.
  intros Hws Hs. unfold getitem; simpl.
  rewrite col_lookup_apply_writes, Hws, Hs. reflexivity.
Qed.

Lemma run_setitem k v idx ws cols :
  setitem k v (mkDF idx (apply_writes ws cols))
  = (mkDF idx (apply_writes ((k, v) :: ws) cols), Ok tt).
Proof. reflexivity. Qed.

Lemma run_ret {A} (a : A) st : (mret a : M A) st = (st, Ok a).
Proof. reflexivity. Qed.

(** [run_expr] evaluates a computation at a table of the form
    [apply_writes ws cols]: it follows the binds, answers each read from
    the hypotheses on [cols] and records each assignment in [ws]. *)
Ltac run_expr :=
  lazymatch goal with
  | |- getitem _ _ = _ =>
      first [ apply run_getitem_ok; [reflexivity | eassumption]
            | apply run_getitem_raise; [reflexivity | eassumption] ]
  | |- setitem _ _ _ = _ => apply run_setitem
  | |- mret _ _ = _ => apply @run_ret
  | |- lift1 _ _ _ = _ => unfold lift1 at 1; run_expr
  | |- lift2 _ _ _ _ = _ => unfold lift2 at 1; run_expr
  | |- assign _ _ _ = _ => unfold assign at 1; run_expr
  | |- (_ ≫= _) _ = _ =>
      first [ eapply run_bind_ok; [run_expr | cbv beta; run_expr]
            | eapply run_bind_raise; run_expr ]
  end.

Lemma compute_ratios_ok idx cols (raw : string → Series) :
  Forall (λ k, col_lookup k cols = Some (raw k)) raw_fields →
  compute_ratios (mkDF idx cols)
  = (mkDF idx (apply_writes (reverse (engine_log raw)) cols), Ok tt).
Proof.
  intros H. unfold raw_fields in H.
  repeat (apply Forall_cons_1 in H as [? H]). clear H. cbv beta in *.
  change cols with (apply_writes [] cols) at 1.
  unfold compute_ratios.
  etrans; [run_expr|]. reflexivity.
Qed.

(** ** Cells: what stays finite *)

Lemma is_fin_no_inf c : is_fin c → no_inf c.
Proof. by destruct c. Qed.

Lemma is_fin_Fin q : is_fin (Fin q).
Proof. exact I. Qed.

Lemma is_fin_inv c : is_fin c → ∃ q, c = Fin q.
Proof. destruct c; [done..|eauto]. Qed.

Lemma fadd_fin a b : is_fin a → is_fin b → is_fin (fadd a b).
Proof. by destruct a, b. Qed.

Lemma fsub_fin a b : is_fin a → is_fin b → is_fin (fsub a b).
Proof. by destruct a, b. Qed.

Lemma fmul_fin a b : is_fin a → is_fin b → is_fin (fmul a b).
Proof. by destruct a, b. Qed.

Lemma fneg_fin a : is_fin a → is_fin (fneg a).
Proof. by destruct a. Qed.

Lemma fadd_no_inf a b : no_inf a → no_inf b → no_inf (fadd a b).
Proof. by destruct a, b. Qed.

Lemma fsub_no_inf a b : no_inf a → no_inf b → no_inf (fsub a b).
Proof. by destruct a, b. Qed.

Lemma fmul_no_inf a b : no_inf a → no_inf b → no_inf (fmul a b).
Proof. by destruct a, b. Qed.

(** The division inside [safe_div] never sees a zero divisor. *)
Lemma cell_safe_div_fin n d : no_inf n → no_inf d → is_fin (cell_safe_div n d).
Proof.
  unfold cell_safe_div, zero_to_nan.
  destruct n as [| |x], d as [| |y]; try done; simpl.
  all: case_bool_decide as Hy; try done; simpl.
  by rewrite bool_decide_eq_false_2.
Qed.

Lemma cell_safe_div_nonzero x y :
  y ≠ 0 → cell_safe_div (Fin x) (Fin y) = Fin (x / y).
Proof.
  intros Hy. unfold cell_safe_div, zero_to_nan; simpl.
  rewrite bool_decide_eq_false_2 by done. simpl.
  by rewrite bool_decide_eq_false_2.
Qed.

Lemma cell_safe_div_zero n : cell_safe_div n (Fin 0) = Fin 0.
Proof. by destruct n. Qed.

Lemma cell_safe_div_nan_r n : cell_safe_div n NaN = Fin 0.
Proof. by destruct n. Qed.

Lemma cell_safe_div_nan_l d : no_inf d → cell_safe_div NaN d = Fin 0.
Proof. by destruct d. Qed.

(** ** Series: the cell at a position *)

Section lookup.
Implicit Types (a b : Series) (i : nat) (x y : cell).

Lemma lookup_add a b i x y :
  a !! i = Some x → b !! i = Some y → (a + b)%series !! i = Some (fadd x y).
Proof. intros Ha Hb. unfold Series.add. by rewrite lookup_zip_with, Ha, Hb. Qed.

Lemma lookup_sub a b i x y :
  a !! i = Some x → b !! i = Some y → (a - b)%series !! i = Some (fsub x y).
Proof. intros Ha Hb. unfold Series.sub. by rewrite lookup_zip_with, Ha, Hb. Qed.

Lemma lookup_truediv a b i x y :
  a !! i = Some x → b !! i = Some y → Series.truediv a b !! i = Some (fdiv x y).
Proof. intros Ha Hb. unfold Series.truediv. by rewrite lookup_zip_with, Ha, Hb. Qed.

Lemma lookup_neg a i x : a !! i = Some x → Series.neg a !! i = Some (fneg x).
Proof. intros Ha. unfold Series.neg. by rewrite list_lookup_fmap, Ha. Qed.

Lemma lookup_mul a c i x :
  a !! i = Some x → Series.mul a c !! i = Some (fmul x (Fin c)).
Proof. intros Ha. unfold Series.mul. by rewrite list_lookup_fmap, Ha. Qed.

Lemma lookup_rmul a c i x :
  a !! i = Some x → Series.rmul c a !! i = Some (fmul (Fin c) x).
Proof. intros Ha. unfold Series.rmul. by rewrite list_lookup_fmap, Ha. Qed.

Lemma lookup_rsub a c i x :
  a !! i = Some x → Series.rsub c a !! i = Some (fsub (Fin c) x).
Proof. intros Ha. unfold Series.rsub. by rewrite list_lookup_fmap, Ha. Qed.

Lemma lookup_safe_div a b i x y :
  a !! i = Some x → b !! i = Some y →
  safe_div a b !! i = Some (cell_safe_div x y).
Proof.
  intros Ha Hb. unfold safe_div, Series.fillna_zero, Series.replace_zero_nan.
  rewrite list_lookup_fmap.
  erewrite lookup_truediv; [done..|]. by rewrite list_lookup_fmap, Hb.
Qed.

Lemma length_safe_div a b :
  length (safe_div a b) = length a `min` length b.
Proof.
  unfold safe_div, Series.fillna_zero, Series.truediv, Series.replace_zero_nan.
  by rewrite length_fmap, length_zip_with, length_fmap.
Qed.

End lookup.

Create HintDb series discriminated.
#[export] Hint Resolve lookup_add lookup_sub lookup_neg lookup_mul lookup_rmul
  lookup_rsub lookup_safe_div : series.

(** ** The null-safe division primitive *)

(** Plain division by zero gives infinities and a null; [safe_div] gives
    zeros. *)
Example truediv_by_zero :
  Series.truediv [num 1; num 0; num (-1)] [num 0; num 0; num 0]
  = [Inf false; NaN; Inf true].
Proof. reflexivity. Qed.

Example safe_div_by_zero :
  safe_div [num 1; num 0; num (-1)] [num 0; num 0; num 0] = [Fin 0; Fin 0; Fin 0].
Proof. reflexivity. Qed.



(** ** One row through the engine *)

Lemma raw_columns_of df i (r : string → cell) :
  (∀ k, k ∈ raw_fields → cell_at df k i = Some (r k)) →
  ∃ raw : string → Series,
    Forall (λ k, col_lookup k (columns df) = Some (raw k)) raw_fields
    ∧ Forall (λ k, raw k !! i = Some (r k)) raw_fields.
Proof.
  intros H. exists (λ k, default [] (col_lookup k (columns df))).
  split; apply list.Forall_forall; intros k Hk; specialize (H k Hk);
    unfold cell_at in H; by destruct (col_lookup k (columns df)).
Qed.

Lemma compute_ratios_enriched df (raw : string → Series) :
  Forall (λ k, col_lookup k (columns df) = Some (raw k)) raw_fields →
  compute_ratios df
  = (mkDF (index df) (apply_writes (reverse (engine_log raw)) (columns df)), Ok tt).
Proof. destruct df. apply compute_ratios_ok. Qed.

Ltac split_Forall H :=
  unfold raw_fields in H; repeat (apply Forall_cons_1 in H as [? H]); clear H;
  cbv beta in *.

(** Reads column [k] of the enriched table off the engine's assignments. *)
Ltac engine_column :=
  rewrite col_lookup_apply_writes;
  lazymatch goal with
  | |- context [col_lookup ?k (reverse (engine_log ?raw))] =>
      let t := eval cbv [engine_log reverse rev_append col_lookup
                         String.eqb Ascii.eqb Bool.eqb andb]
               in (col_lookup k (reverse (engine_log raw))) in
      change (col_lookup k (reverse (engine_log raw))) with t
  end;
  cbv beta iota.

Lemma lookup_eq {A} (o : option A) (c v : A) : o = Some c → c = v → o = Some v.
Proof. congruence. Qed.

(** The cell of a column expression at row [i], from the raw cells there. *)
Ltac series_at :=
  eapply lookup_eq; [solve [eauto 40 with series nocore] | try reflexivity].

Ltac engine_cell :=
  unfold cell_at; cbn [columns]; engine_column; cbn [mbind option_bind].

(** Runs the engine on a table whose row [i] is [r]. *)
Ltac engine_row H :=
  let raw := fresh "raw" in
  let Hcols := fresh "Hcols" in
  let Hrows := fresh "Hrows" in
  destruct (raw_columns_of _ _ _ H) as (raw & Hcols & Hrows);
  eexists; split; [exact (compute_ratios_enriched _ raw Hcols)|];
  split_Forall Hrows.

(** Membership in a list of literals, one case per element. *)
Ltac each_member Hk :=
  repeat (apply elem_of_cons in Hk as [->|Hk]); [..|by apply elem_of_nil in Hk].

Lemma sample_row_at i :
  (i < 3)%nat → ∀ k, k ∈ raw_fields → cell_at sample_df k i = Some (sample_row i k).
Proof.
  intros Hi k Hk. unfold sample_row.
  destruct i as [|[|[|i]]]; [| | |lia]; each_member Hk; reflexivity.
Qed.

(** The scenarios of the specification: current ratio 100/40 = 2.5,
    financial leverage 40·100/150 = 26.66…, and current ratio 0 when
    short-term liabilities are 0. *)
Example scenario_current_ratio :
  cell_at (compute_ratios scenario_df).1 "Cari Oran" 0 = Some (Fin (dec 25 10)).
Proof. compute_done. Qed.

Example scenario_financial_leverage :
  cell_at (compute_ratios scenario_df).1 "Finansal Kaldıraç" 0 = Some (Fin (dec 80 3)).
Proof. compute_done. Qed.

Example scenario_zero_short_term_liabilities :
  cell_at (compute_ratios scenario_df).1 "Cari Oran" 1 = Some (Fin 0).
Proof. compute_done. Qed.



(** Row 0 of the sample table: X1 = X2 = 0.25, X3 = 0.07, X4 = 2/3, X5 = 2,
    so Z = 0.3 + 0.35 + 0.231 + 0.4 + 2. *)
Example sample_altman_z :
  cell_at (compute_ratios sample_df).1 "Altman Z-Skoru" 0 = Some (Fin (dec 3281 1000)).
Proof. compute_done. Qed.



(** C8.  Payables turnover is the negated null-safe quotient of cost of
    sales by trade payables, inventory turnover the negated quotient by
    inventories: −cost / divisor for a non-zero divisor.  With cost of
    sales −100 and trade payables 50 the payables turnover is 2. *)
Theorem turnover_sign_flip df i (r : string → cell) :
  (∀ k, k ∈ raw_fields → cell_at df k i = Some (r k)) →
  ∃ df', compute_ratios df = (df', Ok tt)
    ∧ cell_at df' "Ticari Borçlar Devir Hızı" i = Some (Spec.payables_turnover r)
    ∧ cell_at df' "Stok Devir Hızı" i = Some (Spec.inventory_turnover r)
    ∧ (∀ c p, r "Satışların Maliyeti (-)" = Fin c → r "Ticari Borçlar" = Fin p →
              p ≠ 0 →
              cell_at df' "Ticari Borçlar Devir Hızı" i = Some (Fin (- c / p)))
    ∧ (∀ c s, r "Satışların Maliyeti (-)" = Fin c → r "Stoklar" = Fin s →
              s ≠ 0 →
              cell_at df' "Stok Devir Hızı" i = Some (Fin (- c / s)))
    ∧ (r "Satışların Maliyeti (-)" = Fin (dec (-100) 1) →
       r "Ticari Borçlar" = Fin (dec 50 1) →
       cell_at df' "Ticari Borçlar Devir Hızı" i = Some (Fin (dec 2 1))).
Proof.
  intros H. engine_row H.
  set (df' := {| index := index df; columns := _ |}).
  assert (cell_at df' "Ticari Borçlar Devir Hızı" i = Some (Spec.payables_turnover r))
    as Hp by (subst df'; engine_cell; series_at).
  assert (cell_at df' "Stok Devir Hızı" i = Some (Spec.inventory_turnover r))
    as Hs by (subst df'; engine_cell; series_at).
  assert (∀ c p : Qc, - (c / p) = - c / p) as Hneg.
  { intros c p. unfold Qcdiv. ring. }
  split_and!; [exact Hp | exact Hs | | | ].
  - intros c p Hc Hd Hne. rewrite Hp. unfold Spec.payables_turnover.
    rewrite Hc, Hd, cell_safe_div_nonzero by done. simpl. by rewrite Hneg.
  - intros c p Hc Hd Hne. rewrite Hs. unfold Spec.inventory_turnover.
    rewrite Hc, Hd, cell_safe_div_nonzero by done. simpl. by rewrite Hneg.
  - intros Hc Hd. rewrite Hp. unfold Spec.payables_turnover.
    rewrite Hc, Hd. compute_done.
Qed.

Lemma turnover_sign_flip_witness :
  ∃ df', compute_ratios sample_df = (df', Ok tt)
         ∧ cell_at df' "Ticari Borçlar Devir Hızı" 0 = Some (Fin (dec 2 1)).
Proof.
  destruct (turnover_sign_flip sample_df 0 (sample_row 0))
    as (df' & Hrun & _ & _ & _ & _ & Hex).
  - apply sample_row_at. lia.
  - exists df'. split; [exact Hrun|]. apply Hex; compute_done.
Defined.

(** ** Every derived cell is a finite number *)

Lemma no_inf_Fin q : no_inf (Fin q).
Proof. exact I. Qed.

Create HintDb fin discriminated.
#[export] Hint Resolve fadd_fin fsub_fin fmul_fin fneg_fin cell_safe_div_fin
  is_fin_Fin no_inf_Fin fadd_no_inf fsub_no_inf fmul_no_inf : fin.
#[export] Hint Resolve is_fin_no_inf | 10 : fin.

Lemma fin_cell (o : option cell) (c : cell) :
  o = Some c → is_fin c → ∃ q, o = Some (Fin q).
Proof. intros -> [q ->]%is_fin_inv. eauto. Qed.

(** With raw cells that are numbers or nulls at row [i], each of the 32
    selected columns holds a finite number at row [i]. *)
Lemma derived_row_finite df i (r : string → cell) :
  (∀ k, k ∈ raw_fields → cell_at df k i = Some (r k)) →
  (∀ k, k ∈ raw_fields → no_inf (r k)) →
  ∃ df', compute_ratios df = (df', Ok tt)
         ∧ ∀ k, k ∈ SELECTED_FEATS → ∃ q, cell_at df' k i = Some (Fin q).
Proof.
  intros H Hfin. engine_row H.
  apply list.Forall_forall in Hfin. split_Forall Hfin.
  intros k Hk. unfold SELECTED_FEATS in Hk.
  each_member Hk; engine_cell;
    (eapply fin_cell;
     [solve [eauto 40 with series nocore] | solve [eauto 40 with fin nocore]]).
Qed.



(** ** A null numerator *)

(** C2 (what the code does).  A null numerator over a present, non-zero
    divisor does not stay null: [fillna(0)] turns the null quotient into 0.
    At row 1 of the sample table current assets are null and short-term
    liabilities are 40, and the current ratio the engine stores is 0. *)
Theorem null_numerator_gives_zero :
  safe_div [NaN] [num 2] = [Fin 0]
  ∧ cell_at sample_df "Dönen Varlıklar" 1 = Some NaN
  ∧ cell_at sample_df "Kısa Vadeli Yükümlülükler" 1 = Some (num 40)
  ∧ ∃ df', compute_ratios sample_df = (df', Ok tt)
           ∧ cell_at df' "Cari Oran" 1 = Some (Fin 0).
Proof.
  split_and!; [reflexivity..|].
  pose proof (sample_row_at 1 ltac:(lia)) as H.
  engine_row H. engine_cell. series_at.
Qed.

(** ** Running the engine twice *)

Lemma set_col_same k v cols : col_lookup k cols = Some v → set_col k v cols = cols.
Proof.
  induction cols as [|[k' s] cols IH]; simpl; [done|].
  destruct (String.eqb_spec k k') as [->|Hne].
  - by intros [= ->].
  - intros H. by rewrite IH.
Qed.

Lemma apply_writes_same ws cols :
  Forall (λ kv, col_lookup kv.1 cols = Some kv.2) ws → apply_writes ws cols = cols.
Proof.
  induction 1 as [|[k v] ws Hk _ IH]; simpl; [done|].
  rewrite IH. by apply set_col_same.
Qed.

(** The engine assigns 32 distinct names, none of them a raw field. *)
Lemma engine_log_last_write (raw : string → Series) :
  Forall (λ kv, col_lookup kv.1 (reverse (engine_log raw)) = Some kv.2)
         (reverse (engine_log raw)).
Proof.
  cbv [engine_log reverse rev_append].
  repeat (apply List.Forall_cons; [reflexivity|]). apply List.Forall_nil.
Qed.

Lemma engine_log_not_raw (raw : string → Series) :
  Forall (λ k, col_lookup k (reverse (engine_log raw)) = None) raw_fields.
Proof.
  unfold raw_fields.
  repeat (apply List.Forall_cons; [reflexivity|]). apply List.Forall_nil.
Qed.

Lemma enriched_raw_columns cols (raw : string → Series) :
  Forall (λ k, col_lookup k cols = Some (raw k)) raw_fields →
  Forall (λ k, col_lookup k (apply_writes (reverse (engine_log raw)) cols)
               = Some (raw k)) raw_fields.
Proof.
  intros H. pose proof (engine_log_not_raw raw) as Hn.
  rewrite list.Forall_forall in H, Hn. apply list.Forall_forall. intros k Hk.
  by rewrite col_lookup_apply_writes, (Hn k Hk), (H k Hk).
Qed.

Lemma present_raw_columns df :
  (∀ k, k ∈ raw_fields → is_Some (col_lookup k (columns df))) →
  ∃ raw : string → Series,
    Forall (λ k, col_lookup k (columns df) = Some (raw k)) raw_fields.
Proof.
  intros H. exists (λ k, default [] (col_lookup k (columns df))).
  apply list.Forall_forall. intros k Hk. by destruct (H k Hk) as [s ->].
Qed.

(** C9.  On a table that has the raw columns, the engine succeeds, and a
    second run on the table the first one produced succeeds too and leaves
    that table as it is: every column, the 32 derived ones included, keeps
    the value of the first run. *)
Theorem compute_ratios_idempotent df :
  (∀ k, k ∈ raw_fields → is_Some (col_lookup k (columns df))) →
  ∃ df1, compute_ratios df = (df1, Ok tt)
         ∧ compute_ratios df1 = (df1, Ok tt)
         ∧ ∀ k, k ∈ SELECTED_FEATS → is_Some (col_lookup k (columns df1)).
Proof.
  intros [raw Hraw]%present_raw_columns.
  eexists. split; [exact (compute_ratios_enriched _ raw Hraw)|]. split.
  - rewrite (compute_ratios_enriched _ raw); cbn [columns index].
    + rewrite apply_writes_same; [done|].
      eapply list.Forall_impl; [apply engine_log_last_write|].
      intros [k v] Hk; cbn [fst snd] in *.
      by rewrite col_lookup_apply_writes, Hk.
    + by apply enriched_raw_columns.
  - intros k Hk. cbn [columns]. unfold SELECTED_FEATS in Hk.
    each_member Hk; engine_column; eauto.
Qed.

Lemma compute_ratios_idempotent_witness :
  ∃ df1, compute_ratios sample_df = (df1, Ok tt)
         ∧ compute_ratios df1 = (df1, Ok tt)
         ∧ ∀ k, k ∈ SELECTED_FEATS → is_Some (col_lookup k (columns df1)).
Proof.
  apply compute_ratios_idempotent.
  intros k Hk. each_member Hk; by eexists.
Defined.

(** ** A missing raw column *)

Ltac present_fields :=
  repeat first
    [ apply List.Forall_nil
    | apply List.Forall_cons
    | apply Forall_app_2
    | match goal with
      | H : col_lookup ?f _ = Some _ |- is_Some (col_lookup ?f _) =>
          rewrite H; by eexists
      end ].

(** The case where [f] is the first raw field the table lacks. *)
Ltac missing_here idx cols f pre rest :=
  exists f, pre, rest;
  let df' := fresh "df'" in
  let Hrun := fresh "Hrun" in
  assert (∃ df', compute_ratios (mkDF idx cols) = (df', Raise (KeyError f)))
    as [df' Hrun]
    by (eexists; change cols with (apply_writes [] cols) at 1;
        unfold compute_ratios; run_expr);
  exists df'; split_and!;
    [ reflexivity | present_fields | assumption | exact Hrun
    | unfold app; rewrite Hrun; reflexivity ].

Ltac missing_cases idx cols Hk Hnone pre fields :=
  lazymatch fields with
  | [] => exfalso; unfold raw_fields in Hk; each_member Hk; congruence
  | ?f :: ?rest =>
      let Hf := fresh "Hf" in
      destruct (col_lookup f cols) eqn:Hf;
        [ missing_cases idx cols Hk Hnone (pre ++ [f]) rest
        | missing_here idx cols f pre rest ]
  end.

(** C7 (as the code has it).  On a table that lacks a raw column the
    engine raises [KeyError] for the first raw field, in the order of the
    reads, that is absent, and returns no table; the script has no handler
    for it, so the run ends with that exception, not with a message of the
    application. *)
Theorem missing_field_raises df (model : option (DataFrame → list string)) :
  (∃ k, k ∈ raw_fields ∧ col_lookup k (columns df) = None) →
  ∃ k pre post df',
    raw_fields = pre ++ k :: post
    ∧ Forall (λ k', is_Some (col_lookup k' (columns df))) pre
    ∧ col_lookup k (columns df) = None
    ∧ compute_ratios df = (df', Raise (KeyError k))
    ∧ app model df = Uncaught (KeyError k).
Proof.
  intros (k0 & Hk0 & Hnone). destruct df as [idx cols]. cbn [columns] in *.
  let fields := eval cbv [raw_fields] in raw_fields in
  missing_cases idx cols Hk0 Hnone (@nil string) fields.
Qed.

Lemma missing_field_raises_witness :
  ∃ k pre post df',
    raw_fields = pre ++ k :: post
    ∧ Forall (λ k', is_Some (col_lookup k' (columns sample_without_inventories))) pre
    ∧ col_lookup k (columns sample_without_inventories) = None
    ∧ compute_ratios sample_without_inventories = (df', Raise (KeyError k))
    ∧ app None sample_without_inventories = Uncaught (KeyError k).
Proof.
  apply missing_field_raises. exists "Stoklar". split; [|reflexivity].
  unfold raw_fields. do 4 right. left.
Defined.

(** C7 (as the specification states it) fails on the sample table without
    its inventories column: the run ends with the uncaught [KeyError], no
    [st.error] message is shown whatever the model, and the table the
    engine was mutating has got the current ratio column it lacked. *)
Lemma missing_field_no_message :
  (∀ model, app model sample_without_inventories = Uncaught (KeyError "Stoklar"))
  ∧ ¬ (∃ model warned message,
         app model sample_without_inventories = Stopped warned message)
  ∧ col_lookup "Cari Oran" (columns sample_without_inventories) = None
  ∧ ∃ df', compute_ratios sample_without_inventories = (df', Raise (KeyError "Stoklar"))
           ∧ is_Some (col_lookup "Cari Oran" (columns df')).
Proof.
  assert (compute_ratios sample_without_inventories
          = ((compute_ratios sample_without_inventories).1, Raise (KeyError "Stoklar")))
    as Hrun by (vm_compute; reflexivity).
  assert (∀ model, app model sample_without_inventories = Uncaught (KeyError "Stoklar"))
    as Happ by (intros model; unfold app; by rewrite Hrun).
  split; [exact Happ|]. split; [|split].
  - intros (model & warned & message & H). by rewrite Happ in H.
  - by vm_compute.
  - eexists. split; [exact Hrun|]. vm_compute. by eexists.
Qed.

(** ** Selecting and filtering rows *)

Lemma existsb_false {A} (f : A → bool) (l : list A) :
  existsb f l = false ↔ Forall (λ x, f x = false) l.
Proof.
  induction l as [|x l IH]; simpl.
  - split; [constructor|done].
  - rewrite orb_false_iff, IH, list.Forall_cons. tauto.
Qed.

Lemma filter_fmap {A B} (f : A → B) (P : B → Prop) `{!∀ y, Decision (P y)}
    (l : list A) :
  filter P (f <$> l) = f <$> filter (P ∘ f) l.
Proof.
  induction l as [|x l IH]; [done|]. rewrite fmap_cons, !filter_cons, IH.
  simpl. by destruct (decide (P (f x))).
Qed.

Lemma sublist_fmap {A B} (f : A → B) (l k : list A) :
  l `sublist_of` k → (f <$> l) `sublist_of` (f <$> k).
Proof.
  induction 1; simpl; [constructor | by apply sublist_skip | by apply sublist_cons].
Qed.

Section take_rows.
Context {A : Type}.
Implicit Types (l : list A) (ps : list nat).

Lemma take_rows_lookup ps l j :
  Forall (λ p, p < length l)%nat ps → take_rows ps l !! j = ps !! j ≫= (l !!.).
Proof.
  intros Hps. revert j. induction Hps as [|p ps Hp _ IH]; intros j; [done|].
  apply lookup_lt_is_Some in Hp as [x Hx]. unfold take_rows in *; simpl.
  rewrite Hx. destruct j; simpl; [done|apply IH].
Qed.

Lemma length_take_rows ps l :
  Forall (λ p, p < length l)%nat ps → length (take_rows ps l) = length ps.
Proof.
  induction 1 as [|p ps Hp _ IH]; [done|].
  apply lookup_lt_is_Some in Hp as [x Hx]. unfold take_rows in *; simpl.
  rewrite Hx. simpl. f_equal. apply IH.
Qed.

Lemma take_rows_seq l : take_rows (seq 0 (length l)) l = l.
Proof.
  apply list_eq. intros j. rewrite take_rows_lookup.
  - destruct (decide (j < length l)%nat) as [Hj|Hj].
    + by rewrite lookup_seq_lt.
    + rewrite (proj2 (lookup_ge_None l j)) by lia.
      rewrite (proj2 (lookup_ge_None _ j)); [done|]. rewrite length_seq. lia.
  - apply Forall_seq. intros; lia.
Qed.

End take_rows.

Lemma wf_column_length df k s :
  wf df → (k, s) ∈ columns df → length s = length (index df).
Proof. intros Hwf Hin. by apply (proj1 (list.Forall_forall _ _) Hwf (k, s)). Qed.

(** Taking the rows at positions [ps] of a table gives those rows. *)
Lemma rows_take df ps :
  wf df → Forall (λ p, p < length (index df))%nat ps →
  rows (mkDF (take_rows ps (index df))
             ((λ kv, (kv.1, take_rows ps kv.2)) <$> columns df))
  = row_at df <$> ps.
Proof.
  intros Hwf Hps. unfold rows; cbn [index columns].
  rewrite length_take_rows by done.
  apply list_eq. intros j. rewrite !list_lookup_fmap.
  destruct (ps !! j) as [p|] eqn:Hj; simpl.
  - rewrite lookup_seq_lt by (by eapply lookup_lt_Some). simpl. f_equal.
    unfold row_at; cbn [index columns]. f_equal.
    + by rewrite take_rows_lookup, Hj.
    + unfold row_cells. rewrite <- list_fmap_compose.
      apply Forall_fmap_ext_1. apply list.Forall_forall. intros [k s] Hin; simpl.
      unfold cell_of. rewrite take_rows_lookup, Hj; [done|].
      by rewrite (wf_column_length df k s).
  - rewrite (proj2 (lookup_ge_None _ j)); [done|].
    rewrite length_seq. by apply lookup_ge_None.
Qed.

Lemma kept_positions_lt (P : nat → Prop) `{!∀ i, Decision (P i)} n :
  Forall (λ p, p < n)%nat (filter P (seq 0 n)).
Proof.
  apply list.Forall_forall. intros p [_ Hp%elem_of_seq]%list_elem_of_filter. lia.
Qed.

(** [dropna] keeps exactly the rows without a null, in their order. *)
Lemma rows_dropna df :
  wf df → rows (dropna df) = filter (λ r, existsb isna r.2 = false) (rows df).
Proof.
  intros Hwf. unfold dropna. rewrite rows_take by (done || apply kept_positions_lt).
  unfold rows. by rewrite filter_fmap.
Qed.

Lemma any_isna_false_rows df i :
  wf df → any_isna df = false → (i < length (index df))%nat →
  existsb isna (row_cells (columns df) i) = false.
Proof.
  intros Hwf Hna Hi. unfold any_isna in Hna.
  rewrite existsb_false in Hna. rewrite existsb_false.
  unfold row_cells. apply Forall_fmap. apply list.Forall_forall.
  intros [k s] Hin; simpl.
  pose proof (proj1 (list.Forall_forall _ _) Hna _ Hin) as Hs; simpl in Hs.
  rewrite existsb_false in Hs.
  assert (i < length s)%nat as [c Hc]%lookup_lt_is_Some
    by (by rewrite (wf_column_length df k s)).
  unfold cell_of. rewrite Hc. simpl.
  by apply (proj1 (list.Forall_forall _ _) Hs), list_elem_of_lookup_2 with i.
Qed.

Lemma filter_all {A} (P : A → Prop) `{!∀ x, Decision (P x)} (l : list A) :
  Forall P l → filter P l = l.
Proof.
  induction 1 as [|x l Hx _ IH]; [done|].
  rewrite filter_cons, decide_True by done. by rewrite IH.
Qed.

(** Without any null [dropna] changes nothing, so lines 177-179 are
    [dropna] in both cases. *)
Lemma filter_rows_dropna df : wf df → filter_rows df = dropna df.
Proof.
  intros Hwf. unfold filter_rows. destruct (any_isna df) eqn:Hna; [done|].
  unfold dropna. rewrite filter_all.
  - destruct df as [idx cols]; cbn [index columns] in *. f_equal.
    + by rewrite take_rows_seq.
    + symmetry. etrans; [|apply list_fmap_id].
      apply Forall_fmap_ext_1. apply list.Forall_forall. intros [k s] Hin; simpl.
      pose proof (wf_column_length _ k s Hwf Hin) as Hlen; cbn [index] in Hlen.
      by rewrite <- Hlen, take_rows_seq.
  - apply Forall_seq. intros i [_ Hi]. by apply any_isna_false_rows.
Qed.

(** [df[names]] keeps the index and holds the named columns of [df]. *)
Lemma select_columns_spec names cols r :
  select_columns names cols = Ok r →
  fst <$> r = names ∧ Forall (λ kv, col_lookup kv.1 cols = Some kv.2) r.
Proof.
  revert r. induction names as [|k names IH]; simpl; intros r.
  - intros [= <-]. by split.
  - destruct (col_lookup k cols) as [s|] eqn:Hk; [|done].
    destruct (select_columns names cols) as [r'|]; [|done].
    intros [= <-]. destruct (IH r' eq_refl) as [Hn Hr']. split.
    + by rewrite fmap_cons, Hn.
    + by constructor.
Qed.

Lemma col_lookup_elem k cols s : col_lookup k cols = Some s → (k, s) ∈ cols.
Proof.
  induction cols as [|[k' s'] cols IH]; simpl; [done|].
  destruct (String.eqb_spec k k') as [->|Hne].
  - intros [= ->]. left.
  - intros H. right. by apply IH.
Qed.

Lemma select_spec names df mi :
  wf df → select names df = Ok mi →
  index mi = index df ∧ fst <$> columns mi = names ∧ wf mi.
Proof.
  intros Hwf. unfold select.
  destruct (select_columns names (columns df)) as [r|] eqn:Hr; [|done].
  intros [= <-]. apply select_columns_spec in Hr as [Hn Hr]. split_and!; [done..|].
  unfold wf; cbn [index columns]. eapply list.Forall_impl; [exact Hr|].
  intros [k s] Hk; simpl in *. eapply wf_column_length; [done|].
  by apply col_lookup_elem.
Qed.

(** With unique labels, [loc] on the labels at positions [ps] takes the
    rows at [ps]. *)
Lemma position_lookup idx p l :
  NoDup idx → idx !! p = Some l → position l idx = Some p.
Proof.
  intros Hnd. revert p. induction Hnd as [|l' idx Hnotin _ IH]; intros p; [done|].
  destruct p as [|p]; simpl.
  - intros [= ->]. by rewrite decide_True.
  - intros Hp. rewrite decide_False.
    + by rewrite (IH p Hp).
    + intros ->. apply Hnotin. by eapply list_elem_of_lookup_2.
Qed.

Lemma loc_take df ps :
  NoDup (index df) → Forall (λ p, p < length (index df))%nat ps →
  loc (take_rows ps (index df)) df
  = Ok (mkDF (take_rows ps (index df))
             ((λ kv, (kv.1, take_rows ps kv.2)) <$> columns df)).
Proof.
  intros Hnd Hps. unfold loc.
  assert (mapM (λ l, position l (index df)) (take_rows ps (index df)) = Some ps) as ->;
    [|done].
  apply mapM_Some_2. induction Hps as [|p ps Hp _ IH]; [constructor|].
  apply lookup_lt_is_Some in Hp as [l Hl]. unfold take_rows in *; simpl.
  rewrite Hl. constructor; [|done]. by apply position_lookup.
Qed.

Lemma existsb_true_elem {A} (f : A → bool) (l : list A) :
  existsb f l ≠ false ↔ ∃ x, x ∈ l ∧ f x = true.
Proof.
  rewrite not_false_iff_true, existsb_exists.
  split; intros (x & Hx & Hf); exists x; split; try done; by apply list_elem_of_In.
Qed.

(** C6.  [model_input] is the 32 selected columns of the enriched table.
    The filtering of lines 177-179 keeps exactly the rows none of whose 32
    values is null: never more rows than before, each with its label and
    its values, in the input order; a row is dropped if and only if one of
    its 32 values is null.  The output table of line 196 holds the rows of
    the enriched table with the surviving labels, in that order. *)
Theorem row_filtering_spec (enriched model_input : DataFrame) :
  wf enriched → NoDup (index enriched) →
  select SELECTED_FEATS enriched = Ok model_input →
  fst <$> columns (filter_rows model_input) = SELECTED_FEATS
  ∧ rows (filter_rows model_input)
    = filter (λ r, existsb isna r.2 = false) (rows model_input)
  ∧ (length (rows (filter_rows model_input)) ≤ length (rows model_input))%nat
  ∧ rows (filter_rows model_input) `sublist_of` rows model_input
  ∧ (∀ r, r ∈ rows model_input →
       length r.2 = 32%nat
       ∧ (r ∉ rows (filter_rows model_input) ↔ ∃ c, c ∈ r.2 ∧ isna c = true))
  ∧ ∃ out_df, loc (index (filter_rows model_input)) enriched = Ok out_df
              ∧ index out_df = index (filter_rows model_input)
              ∧ rows out_df `sublist_of` rows enriched.
Proof.
  intros Hwf Hnd Hsel.
  destruct (select_spec _ _ _ Hwf Hsel) as (Hidx & Hnames & Hwfmi).
  rewrite filter_rows_dropna, rows_dropna by done.
  split_and!.
  - rewrite <- Hnames. unfold dropna; cbn [columns].
    rewrite <- list_fmap_compose. apply Forall_fmap_ext_1.
    by apply list.Forall_forall.
  - done.
  - apply length_filter.
  - apply sublist_filter.
  - intros r Hr. split.
    + unfold rows in Hr. apply list_elem_of_fmap in Hr as (i & -> & _).
      unfold row_at, row_cells; cbn [snd]. by rewrite length_fmap, <- (length_fmap fst), Hnames.
    + rewrite list_elem_of_filter, <- existsb_true_elem. tauto.
  - unfold dropna; cbn [index]. rewrite Hidx.
    set (ps := filter _ _).
    assert (Forall (λ p, p < length (index enriched))%nat ps) as Hps
      by apply kept_positions_lt.
    eexists. split_and!; [by apply loc_take|done|].
    rewrite rows_take by done. unfold rows.
    apply sublist_fmap, sublist_filter.
Qed.

(** On the feature table whose middle row has nulls, rows 0 and 2 stay. *)
Example filter_rows_drops_middle_row :
  index (filter_rows feature_table_with_nulls) = [0; 2]%nat
  ∧ any_isna (filter_rows feature_table_with_nulls) = false.
Proof. split; reflexivity. Qed.

Lemma row_filtering_spec_witness :
  rows (filter_rows feature_table_with_nulls)
  = filter (λ r, existsb isna r.2 = false) (rows feature_table_with_nulls).
Proof.
  apply (row_filtering_spec feature_table_with_nulls feature_table_with_nulls).
  - unfold wf. compute_done.
  - compute_done.
  - reflexivity.
Defined.

(** ** Whole columns *)

Lemma safe_div_zip_with (a b : Series) : safe_div a b = zip_with cell_safe_div a b.
Proof.
  unfold safe_div, Series.fillna_zero, Series.truediv, Series.replace_zero_nan.
  revert b. induction a as [|x a IH]; intros [|y b]; simpl; [done..|].
  f_equal. apply IH.
Qed.

Section columns.
Context (n : nat).
Implicit Types (a b : Series) (P Q R : cell → Prop).

Lemma column_zip_with (f : cell → cell → cell) P Q R a b :
  (∀ x y, P x → Q y → R (f x y)) →
  column_of n P a → column_of n Q b → column_of n R (zip_with f a b).
Proof.
  intros Hf [Hla Ha] [Hlb Hb]. split.
  - rewrite length_zip_with. lia.
  - clear Hla Hlb. revert b Hb. induction Ha as [|x a Hx _ IH]; intros b Hb; [constructor|].
    destruct Hb as [|y b Hy Hb]; simpl; [constructor|]. constructor; auto.
Qed.

Lemma column_fmap (f : cell → cell) P R a :
  (∀ x, P x → R (f x)) → column_of n P a → column_of n R (f <$> a).
Proof.
  intros Hf [Hla Ha]. split; [by rewrite length_fmap|].
  apply Forall_fmap. eapply list.Forall_impl; [exact Ha|]. exact Hf.
Qed.

Lemma column_weaken a : column_of n is_fin a → column_of n no_inf a.
Proof. intros [? Ha]. split; [done|]. eapply list.Forall_impl; [exact Ha|]. apply is_fin_no_inf. Qed.

Lemma column_safe_div a b :
  column_of n no_inf a → column_of n no_inf b → column_of n is_fin (safe_div a b).
Proof. rewrite safe_div_zip_with. apply column_zip_with, cell_safe_div_fin. Qed.

Lemma column_add_fin a b :
  column_of n is_fin a → column_of n is_fin b → column_of n is_fin (a + b)%series.
Proof. apply column_zip_with, fadd_fin. Qed.

Lemma column_sub_fin a b :
  column_of n is_fin a → column_of n is_fin b → column_of n is_fin (a - b)%series.
Proof. apply column_zip_with, fsub_fin. Qed.

Lemma column_add_no_inf a b :
  column_of n no_inf a → column_of n no_inf b → column_of n no_inf (a + b)%series.
Proof. apply column_zip_with, fadd_no_inf. Qed.

Lemma column_sub_no_inf a b :
  column_of n no_inf a → column_of n no_inf b → column_of n no_inf (a - b)%series.
Proof. apply column_zip_with, fsub_no_inf. Qed.

Lemma column_neg_fin a : column_of n is_fin a → column_of n is_fin (Series.neg a).
Proof. apply column_fmap, fneg_fin. Qed.

Lemma column_mul_fin a c : column_of n is_fin a → column_of n is_fin (Series.mul a c).
Proof. apply column_fmap. intros x Hx. by apply fmul_fin. Qed.

Lemma column_mul_no_inf a c : column_of n no_inf a → column_of n no_inf (Series.mul a c).
Proof. apply column_fmap. intros x Hx. by apply fmul_no_inf. Qed.

Lemma column_rmul_fin a c : column_of n is_fin a → column_of n is_fin (Series.rmul c a).
Proof. apply column_fmap. intros x Hx. by apply fmul_fin. Qed.

Lemma column_rsub_fin a c : column_of n is_fin a → column_of n is_fin (Series.rsub c a).
Proof. apply column_fmap. intros x Hx. by apply fsub_fin. Qed.

End columns.

Create HintDb column discriminated.
#[export] Hint Resolve column_safe_div column_add_fin column_sub_fin column_neg_fin
  column_mul_fin column_rmul_fin column_rsub_fin column_add_no_inf column_sub_no_inf
  column_mul_no_inf : column.
#[export] Hint Resolve column_weaken | 10 : column.

(** With raw columns of [n] numbers or nulls, each of the 32 selected
    columns of the enriched table is a column of [n] finite numbers. *)
Lemma enriched_feature_columns n cols (raw : string → Series) :
  Forall (λ k, column_of n no_inf (raw k)) raw_fields →
  Forall (λ k, ∃ s, col_lookup k (apply_writes (reverse (engine_log raw)) cols) = Some s
                    ∧ column_of n is_fin s) SELECTED_FEATS.
Proof.
  intros H. split_Forall H. unfold SELECTED_FEATS.
  repeat (apply List.Forall_cons;
          [engine_column; eexists; split; [reflexivity|]; solve [eauto 40 with column nocore]|]).
  apply List.Forall_nil.
Qed.

Lemma select_columns_ok names cols :
  Forall (λ k, is_Some (col_lookup k cols)) names →
  ∃ r, select_columns names cols = Ok r.
Proof.
  induction 1 as [|k names [s Hk] _ [r IH]]; simpl; [by eexists|].
  rewrite Hk, IH. by eexists.
Qed.

Lemma select_columns_Forall (P : Series → Prop) names cols r :
  Forall (λ k, ∃ s, col_lookup k cols = Some s ∧ P s) names →
  select_columns names cols = Ok r → Forall (λ kv, P kv.2) r.
Proof.
  intros H. revert r. induction H as [|k names (s & Hk & Hs) _ IH]; simpl; intros r.
  - intros [= <-]. constructor.
  - rewrite Hk. destruct (select_columns names cols) as [r'|]; [|done].
    intros [= <-]. constructor; [done|]. by apply IH.
Qed.

Lemma all_finite_not_null (s : Series) : Forall is_fin s → existsb isna s = false.
Proof.
  intros H. apply existsb_false. eapply list.Forall_impl; [exact H|].
  by intros [].
Qed.



(** ** More on the null-safe division *)

Lemma cell_safe_div_not_null n d : isna (cell_safe_div n d) = false.
Proof.
  unfold cell_safe_div, zero_to_nan.
  destruct n as [|s|x], d as [|t|y]; simpl; try done.
  all: case_bool_decide; try done; simpl.
  rewrite bool_decide_eq_false_2 by done. done.
Qed.

Lemma cell_safe_div_inf n d s :
  cell_safe_div n d = Inf s → ∃ t q, n = Inf t ∧ d = Fin q ∧ q ≠ 0.
Proof.
  unfold cell_safe_div, zero_to_nan.
  destruct n as [|t|x], d as [|u|y]; simpl; try done.
  - case_bool_decide; [done|]. eauto.
  - case_bool_decide; [done|]. simpl. by rewrite bool_decide_eq_false_2.
Qed.


Lemma Qcopp_0 : - 0 = 0.
Proof. ring. Qed.

Lemma cell_safe_div_scale n d c :
  c ≠ 0 → cell_safe_div (fmul n (Fin c)) d = fmul (cell_safe_div n d) (Fin c).
Proof.
  intros Hc. unfold cell_safe_div, zero_to_nan, nan_to_zero.
  destruct n as [|s|x], d as [|t|y]; simpl;
    rewrite ?(bool_decide_eq_false_2 (c = 0)) by done; simpl;
    rewrite ?Qcmult_0_l; try done.
  all: case_bool_decide as Hy; simpl; rewrite ?Qcmult_0_l; try done.
  - rewrite (bool_decide_eq_false_2 (c = 0)) by done.
    by destruct s, (Qc_neg c), (Qc_neg y).
  - rewrite (bool_decide_eq_false_2 (y = 0)) by done. simpl.
    f_equal. unfold Qcdiv. ring.
Qed.



Lemma cell_safe_div_neg n d :
  cell_safe_div (fneg n) d = fneg (cell_safe_div n d).
Proof.
  unfold cell_safe_div, zero_to_nan, nan_to_zero.
  destruct n as [|s|x], d as [|t|y]; simpl; rewrite ?Qcopp_0; try done.
  all: case_bool_decide as Hy; simpl; rewrite ?Qcopp_0; try done.
  - by destruct s, (Qc_neg y).
  - rewrite (bool_decide_eq_false_2 (y = 0)) by done. simpl.
    f_equal. unfold Qcdiv. ring.
Qed.

(** The sign flip of the turnover ratios may be applied to the numerator
    or to the quotient; a zero quotient stays zero. *)
Theorem safe_div_neg (num denom : Series) :
  Series.neg (safe_div num denom) = safe_div (Series.neg num) denom.
Proof.
  rewrite !safe_div_zip_with. unfold Series.neg.
  revert denom. induction num as [|n num IH]; intros [|d denom]; simpl; [done..|].
  rewrite cell_safe_div_neg. f_equal. apply IH.
Qed.

(** ** What the engine keeps, in every outcome *)
Section preserves.
Context (I : DataFrame → Prop).

Lemma preserves_ret {A} (Q : A → Prop) (a : A) : Q a → preserves I Q (mret a).
Proof. intros Ha df Hdf. split; [done|]. by intros a' [= <-]. Qed.

Lemma preserves_bind {A B} (Q : A → Prop) (R : B → Prop) (m : M A) (f : A → M B) :
  preserves I Q m → (∀ a, Q a → preserves I R (f a)) → preserves I R (m ≫= f).
Proof.
  intros Hm Hf df Hdf. destruct (Hm df Hdf) as [HI HQ].
  unfold mbind, M_bind. destruct (m df) as [df' [a|e]]; simpl in *.
  - by apply Hf; [apply HQ|].
  - by split.
Qed.

Lemma preserves_getitem (Q : Series → Prop) k :
  (∀ df s, I df → col_lookup k (columns df) = Some s → Q s) →
  preserves I Q (getitem k).
Proof.
  intros HQ df Hdf. unfold getitem.
  destruct (col_lookup k (columns df)) as [s|] eqn:Hk; simpl; split; try done.
  intros a [= <-]. by eapply HQ.
Qed.

Lemma preserves_setitem (Q : Series → Prop) k v :
  (∀ df, I df → I (mkDF (index df) (set_col k v (columns df)))) →
  preserves I (λ _ : unit, True) (setitem k v).
Proof. intros HI df Hdf. split; [by apply HI|done]. Qed.

Lemma preserves_lift1 {A B} (Q : A → Prop) (R : B → Prop) (f : A → B) (m : M A) :
  preserves I Q m → (∀ a, Q a → R (f a)) → preserves I R (lift1 f m).
Proof.
  intros Hm Hf. unfold lift1. eapply preserves_bind; [exact Hm|].
  intros a Ha. by apply preserves_ret, Hf.
Qed.

Lemma preserves_lift2 {A B C} (Q1 : A → Prop) (Q2 : B → Prop) (R : C → Prop)
    (f : A → B → C) (m1 : M A) (m2 : M B) :
  preserves I Q1 m1 → preserves I Q2 m2 → (∀ a b, Q1 a → Q2 b → R (f a b)) →
  preserves I R (lift2 f m1 m2).
Proof.
  intros H1 H2 Hf. unfold lift2. eapply preserves_bind; [exact H1|].
  intros a Ha. eapply preserves_bind; [exact H2|].
  intros b Hb. by apply preserves_ret, Hf.
Qed.

Lemma preserves_assign (Q : Series → Prop) k (e : M Series) :
  preserves I Q e →
  (∀ v df, Q v → I df → I (mkDF (index df) (set_col k v (columns df)))) →
  preserves I (λ _ : unit, True) (assign k e).
Proof.
  intros He HI. unfold assign. eapply preserves_bind; [exact He|].
  intros v Hv. apply (preserves_setitem Q). intros df. by apply HI.
Qed.

End preserves.

(** Follows the engine statement by statement; [QS] is what is known of
    every series it computes, [side] proves the side conditions. *)
Ltac preserves_engine QS side :=
  lazymatch goal with
  | |- preserves _ _ (mret _) => apply preserves_ret; side
  | |- preserves _ _ (getitem _) => apply preserves_getitem; side
  | |- preserves _ _ (lift1 _ _) =>
      eapply (preserves_lift1 _ QS); [preserves_engine QS side | side]
  | |- preserves _ _ (lift2 _ _ _) =>
      eapply (preserves_lift2 _ QS QS);
      [preserves_engine QS side | preserves_engine QS side | side]
  | |- preserves _ _ (assign _ _) =>
      eapply (preserves_assign _ QS); [preserves_engine QS side | side]
  | |- preserves _ _ (assign ?k ?e ≫= _) =>
      eapply (preserves_bind _ (λ _ : unit, True));
      [preserves_engine QS side | intros _ _; preserves_engine QS side]
  | |- preserves _ _ (_ ≫= _) =>
      eapply (preserves_bind _ QS);
      [preserves_engine QS side | intros ? ?; preserves_engine QS side]
  end.

Lemma same_outside_set names df0 df k v :
  k ∈ names → same_outside names df0 df →
  same_outside names df0 (mkDF (index df) (set_col k v (columns df))).
Proof.
  intros Hk [Hidx Hcols]. split; [done|]. intros k' Hk'; cbn [columns].
  rewrite col_lookup_set_col, <- Hcols by done.
  destruct (String.eqb_spec k' k) as [->|]; done.
Qed.

Lemma compute_ratios_same_outside df0 :
  preserves (same_outside SELECTED_FEATS df0) (λ _, True) compute_ratios.
Proof.
  unfold compute_ratios.
  preserves_engine (λ _ : Series, True)
    ltac:(first [ done
                | intros; apply same_outside_set; [compute_done | assumption] ]).
Qed.

(** The engine changes no column but the 32 it assigns, and not the
    index, whether it returns or raises: the raw columns it reads, and any
    other column of the sheet, are as they were. *)
Theorem compute_ratios_frame (df : DataFrame) :
  index (compute_ratios df).1 = index df
  ∧ (∀ k, k ∉ SELECTED_FEATS →
       col_lookup k (columns (compute_ratios df).1) = col_lookup k (columns df))
  ∧ (∀ k, k ∈ raw_fields →
       col_lookup k (columns (compute_ratios df).1) = col_lookup k (columns df)).
Proof.
  destruct (compute_ratios_same_outside df df) as [[Hidx Hcols] _]; [by split|].
  split_and!; [done..|].
  intros k Hk. apply Hcols. intros Hin. revert Hin.
  unfold raw_fields in Hk. each_member Hk; compute_done.
Qed.

Lemma rectangular_set n df k v :
  length v = n → rectangular n df →
  rectangular n (mkDF (index df) (set_col k v (columns df))).
Proof.
  intros Hv [Hidx Hcols]. split; [done|]. cbn [columns].
  induction Hcols as [|[k' s] cols Hs Hcols IH]; simpl.
  - by repeat constructor.
  - destruct (String.eqb k k'); by constructor.
Qed.

Lemma rectangular_getitem n df k s :
  rectangular n df → col_lookup k (columns df) = Some s → length s = n.
Proof.
  intros [_ Hcols] Hk%col_lookup_elem.
  by apply (proj1 (list.Forall_forall _ _) Hcols (k, s)).
Qed.

Section lengths.
Context (n : nat).
Implicit Types a b : Series.

Lemma length_add a b : length a = n → length b = n → length (a + b)%series = n.
Proof. intros. unfold Series.add. rewrite length_zip_with. lia. Qed.
Lemma length_sub a b : length a = n → length b = n → length (a - b)%series = n.
Proof. intros. unfold Series.sub. rewrite length_zip_with. lia. Qed.
Lemma length_safe_div_same a b :
  length a = n → length b = n → length (safe_div a b) = n.
Proof. intros. rewrite length_safe_div. lia. Qed.
Lemma length_neg a : length a = n → length (Series.neg a) = n.
Proof. intros. unfold Series.neg. by rewrite length_fmap. Qed.
Lemma length_mul a c : length a = n → length (Series.mul a c) = n.
Proof. intros. unfold Series.mul. by rewrite length_fmap. Qed.
Lemma length_rmul a c : length a = n → length (Series.rmul c a) = n.
Proof. intros. unfold Series.rmul. by rewrite length_fmap. Qed.
Lemma length_rsub a c : length a = n → length (Series.rsub c a) = n.
Proof. intros. unfold Series.rsub. by rewrite length_fmap. Qed.

End lengths.

Create HintDb lengths discriminated.
#[export] Hint Resolve length_add length_sub length_safe_div_same length_neg
  length_mul length_rmul length_rsub : lengths.

Lemma compute_ratios_rectangular n :
  preserves (rectangular n) (λ _, True) compute_ratios.
Proof.
  unfold compute_ratios.
  preserves_engine (λ s : Series, length s = n)
    ltac:(first [ done
                | intros; eapply rectangular_getitem; eassumption
                | intros; apply rectangular_set; assumption
                | intros; cbv beta; solve [eauto 20 with lengths nocore] ]).
Qed.

(** On a rectangular table the engine leaves a rectangular table, whether
    it returns or raises: every column it has assigned has one cell per
    row. *)
Theorem compute_ratios_keeps_rectangular (df : DataFrame) :
  wf df → wf (compute_ratios df).1.
Proof.
  intros Hwf.
  destruct (compute_ratios_rectangular (length (index df)) df) as [[Hidx Hcols] _];
    [by split|].
  unfold wf. by rewrite Hidx.
Qed.

Lemma compute_ratios_keeps_rectangular_witness :
  wf (compute_ratios sample_without_inventories).1.
Proof.
  apply compute_ratios_keeps_rectangular. unfold wf. compute_done.
Defined.

(** ** More on single rows *)

(** Proves [cell_at df' k i = Some v] for the enriched table [df']. *)
Ltac enriched_cell := engine_cell; series_at.

(** The L-model score column holds, at every row,
    −0.113·X1 + 0.238·X2 − 0.052·X3 − 0.051·X4 + 0.011·X5 + 0.729·L6 − 0.639·L7
    of that row, with X1..X5 the terms of the Altman score, L6 the cash
    ratio divided again by total liabilities and L7 = Z2. *)
Theorem l_model_column df i (r : string → cell) :
  (∀ k, k ∈ raw_fields → cell_at df k i = Some (r k)) →
  ∃ df', compute_ratios df = (df', Ok tt)
         ∧ cell_at df' "L Model Skoru" i = Some (Row.l_model r)
         ∧ Row.L7 r = Spec.Z2 r.
Proof.
  intros H. engine_row H. split; [enriched_cell|reflexivity].
Qed.

Lemma l_model_column_witness :
  ∃ df', compute_ratios sample_df = (df', Ok tt)
         ∧ cell_at df' "L Model Skoru" 0 = Some (Row.l_model (sample_row 0))
         ∧ Row.L7 (sample_row 0) = Spec.Z2 (sample_row 0).
Proof. apply (l_model_column sample_df 0 (sample_row 0)), sample_row_at. lia. Defined.

(** Row 0 of the sample table: X1 = X2 = 0.25, X3 = 0.07, X4 = 2/3, X5 = 2,
    L6 = (10/50)/120 = 1/600, L7 = 0.6. *)
Example sample_l_model :
  cell_at (compute_ratios sample_df).1 "L Model Skoru" 0
  = Some (Fin (dec (-366575) 1000000)).
Proof. compute_done. Qed.

(** No cross-row dependency: the cell of each of the 32 derived columns at
    a row is determined by the raw cells of that row.  Two rows with the
    same raw values, in one table or in two, at any positions, get the
    same 32 values. *)
Theorem derived_cells_row_local df1 df2 i j (r : string → cell) :
  (∀ k, k ∈ raw_fields → cell_at df1 k i = Some (r k)) →
  (∀ k, k ∈ raw_fields → cell_at df2 k j = Some (r k)) →
  ∀ k, k ∈ SELECTED_FEATS →
    is_Some (cell_at (compute_ratios df1).1 k i)
    ∧ cell_at (compute_ratios df1).1 k i = cell_at (compute_ratios df2).1 k j.
Proof.
  intros H1 H2.
  destruct (raw_columns_of _ _ _ H1) as (raw1 & Hcols1 & Hrows1).
  destruct (raw_columns_of _ _ _ H2) as (raw2 & Hcols2 & Hrows2).
  rewrite (compute_ratios_enriched _ raw1 Hcols1), (compute_ratios_enriched _ raw2 Hcols2).
  cbn [fst]. split_Forall Hrows1. split_Forall Hrows2.
  intros k Hk. unfold SELECTED_FEATS in Hk.
  each_member Hk;
    (match goal with
     | |- is_Some ?x ∧ ?x = ?y =>
         let c := fresh "c" in
         evar (c : cell);
         assert (x = Some c) as -> by (subst c; engine_cell; series_at);
         assert (y = Some c) as -> by (subst c; engine_cell; series_at);
         split; [by eexists | reflexivity]
     end).
Qed.

Lemma derived_cells_row_local_witness :
  cell_at (compute_ratios sample_df).1 "Altman Z-Skoru" 0
  = cell_at (compute_ratios sample_reversed).1 "Altman Z-Skoru" 2.
Proof.
  apply (derived_cells_row_local sample_df sample_reversed 0 2 (sample_row 0)).
  - apply sample_row_at. lia.
  - intros k Hk. unfold sample_row. each_member Hk; reflexivity.
  - unfold SELECTED_FEATS. left.
Defined.





(** A blank row is scored, not skipped: where every raw cell is null the
    Zmijewski score is the constant −4.3 and each of the other 31 features
    is 0. *)
Theorem blank_row_features df i :
  (∀ k, k ∈ raw_fields → cell_at df k i = Some NaN) →
  ∃ df', compute_ratios df = (df', Ok tt)
    ∧ ∀ k, k ∈ SELECTED_FEATS →
        cell_at df' k i
        = Some (if String.eqb k "Zmijewski Skoru" then Fin (dec (-43) 10) else Fin 0).
Proof.
  intros H.
  destruct (raw_columns_of df i (λ _, NaN) H) as (raw & Hcols & Hrows).
  eexists. split; [exact (compute_ratios_enriched _ raw Hcols)|].
  split_Forall Hrows.
  intros k Hk. unfold SELECTED_FEATS in Hk.
  each_member Hk; engine_cell;
    (eapply lookup_eq; [solve [eauto 40 with series nocore] | compute_done]).
Qed.

Lemma blank_row_features_witness :
  ∃ df', compute_ratios blank_row_df = (df', Ok tt)
    ∧ ∀ k, k ∈ SELECTED_FEATS →
        cell_at df' k 1
        = Some (if String.eqb k "Zmijewski Skoru" then Fin (dec (-43) 10) else Fin 0).
Proof.
  apply blank_row_features. intros k Hk. each_member Hk; reflexivity.
Defined.

(** Where short-term liabilities are zero or null, the six ratios over
    them are exactly 0, whatever the numerators hold (numbers, nulls or
    infinities). *)
Theorem zero_short_term_liabilities df i (r : string → cell) :
  (∀ k, k ∈ raw_fields → cell_at df k i = Some (r k)) →
  r "Kısa Vadeli Yükümlülükler" = Fin 0 ∨ r "Kısa Vadeli Yükümlülükler" = NaN →
  ∃ df', compute_ratios df = (df', Ok tt)
    ∧ ∀ k, k ∈ SHORT_TERM_RATIOS → cell_at df' k i = Some (Fin 0).
Proof.
  intros H Hz. engine_row H. intros k Hk. unfold SHORT_TERM_RATIOS in Hk.
  each_member Hk; enriched_cell;
    destruct Hz as [-> | ->]; auto using cell_safe_div_zero, cell_safe_div_nan_r.
Qed.

Lemma zero_short_term_liabilities_witness :
  ∃ df', compute_ratios sample_df = (df', Ok tt)
    ∧ ∀ k, k ∈ SHORT_TERM_RATIOS → cell_at df' k 2 = Some (Fin 0).
Proof.
  apply (zero_short_term_liabilities sample_df 2 (sample_row 2)).
  - apply sample_row_at. lia.
  - left. reflexivity.
Defined.

Lemma fadd_0_r x : fadd x (Fin 0) = x.
Proof. destruct x; simpl; [done..|]. by rewrite Qcplus_0_r. Qed.

Lemma fsub_fmul_0 c d : fsub (Fin c) (fmul (Fin d) (Fin 0)) = Fin c.
Proof. simpl. f_equal. ring. Qed.

Lemma fmul_0_fadd c d x : fadd (fmul (Fin c) (Fin 0)) (fmul (Fin d) (Fin 0)) = Fin 0
                          ∧ fadd (Fin 0) x = x.
Proof.
  split; simpl; [f_equal; ring|]. destruct x; simpl; [done..|]. by rewrite Qcplus_0_l.
Qed.

(** Where total assets (current plus fixed assets) are zero or null, the
    quotients over them vanish: the Altman score reduces to 0.6·X4, the
    Zmijewski score to −4.3 − 0.004·Z3, and financial leverage is 0. *)
Theorem zero_total_assets df i (r : string → cell) :
  (∀ k, k ∈ raw_fields → cell_at df k i = Some (r k)) →
  Spec.total_assets r = Fin 0 ∨ Spec.total_assets r = NaN →
  ∃ df', compute_ratios df = (df', Ok tt)
    ∧ cell_at df' "Altman Z-Skoru" i = Some (fmul (Fin (dec 6 10)) (Spec.X4 r))
    ∧ cell_at df' "Zmijewski Skoru" i
      = Some (fsub (Fin (dec (-43) 10)) (fmul (Fin (dec 4 1000)) (Spec.Z3 r)))
    ∧ cell_at df' "Finansal Kaldıraç" i = Some (Fin 0).
Proof.
  intros H Hz.
  assert (∀ n, cell_safe_div n (Spec.total_assets r) = Fin 0) as Hq.
  { intros n. destruct Hz as [-> | ->];
      auto using cell_safe_div_zero, cell_safe_div_nan_r. }
  unfold Spec.total_assets in Hq.
  engine_row H. split_and!; enriched_cell; rewrite !Hq.
  - destruct (fmul_0_fadd (dec 12 10) (dec 14 10)
                (fmul (Fin (dec 6 10))
                   (cell_safe_div (r "Toplam Özkaynaklar")
                      (fadd (r "Kısa Vadeli Yükümlülükler")
                            (r "Uzun Vadeli Yükümlülükler"))))) as [-> Hx].
    assert (fadd (Fin 0) (fmul (Fin (dec 33 10)) (Fin 0)) = Fin 0) as ->
      by (simpl; f_equal; ring).
    by rewrite Hx, fadd_0_r.
  - rewrite fsub_fmul_0.
    assert (fadd (Fin (dec (-43) 10)) (fmul (Fin (dec 57 10)) (Fin 0))
            = Fin (dec (-43) 10)) as -> by (simpl; f_equal; ring).
    reflexivity.
  - simpl. by rewrite Qcmult_0_l.
Qed.

Lemma zero_total_assets_witness :
  ∃ df', compute_ratios sample_df = (df', Ok tt)
    ∧ cell_at df' "Altman Z-Skoru" 2
      = Some (fmul (Fin (dec 6 10)) (Spec.X4 (sample_row 2)))
    ∧ cell_at df' "Zmijewski Skoru" 2
      = Some (fsub (Fin (dec (-43) 10))
                   (fmul (Fin (dec 4 1000)) (Spec.Z3 (sample_row 2))))
    ∧ cell_at df' "Finansal Kaldıraç" 2 = Some (Fin 0).
Proof.
  apply (zero_total_assets sample_df 2 (sample_row 2)).
  - apply sample_row_at. lia.
  - left. compute_done.
Defined.

(** ** More on the filtering of rows *)

Lemma wf_dropna df : wf df → wf (dropna df).
Proof.
  intros Hwf. unfold dropna.
  set (kept := filter _ _).
  assert (Forall (λ p, p < length (index df))%nat kept) as Hkept
    by apply kept_positions_lt.
  unfold wf; cbn [index columns]. rewrite length_take_rows by done.
  apply Forall_fmap, list.Forall_forall. intros [k s] Hin; simpl.
  apply length_take_rows. by rewrite (wf_column_length df k s).
Qed.

Lemma dropna_no_null df : wf df → any_isna (dropna df) = false.
Proof.
  intros Hwf. unfold any_isna, dropna; cbn [columns].
  set (kept := filter _ _).
  assert (Forall (λ p, p < length (index df))%nat kept) as Hkept
    by apply kept_positions_lt.
  apply existsb_false, Forall_fmap, list.Forall_forall. intros [k s] Hin; simpl.
  apply existsb_false, Forall_lookup. intros j c Hc.
  rewrite take_rows_lookup in Hc by (by rewrite (wf_column_length df k s)).
  destruct (kept !! j) as [p|] eqn:Hp; [|done]. simpl in Hc.
  apply list_elem_of_lookup_2, list_elem_of_filter in Hp as [Hrow _].
  apply existsb_false in Hrow. unfold row_cells in Hrow.
  apply Forall_fmap in Hrow.
  pose proof (proj1 (list.Forall_forall _ _) Hrow _ Hin) as Hcell.
  simpl in Hcell. unfold cell_of in Hcell. by rewrite Hc in Hcell.
Qed.

(** After lines 177-179 the feature table has no null and is rectangular,
    and filtering it again changes nothing. *)
Theorem filter_rows_postcondition df :
  wf df →
  any_isna (filter_rows df) = false
  ∧ wf (filter_rows df)
  ∧ filter_rows (filter_rows df) = filter_rows df.
Proof.
  intros Hwf.
  assert (any_isna (filter_rows df) = false) as Hna.
  { unfold filter_rows. destruct (any_isna df) eqn:Hdf; [|done].
    by apply dropna_no_null. }
  split_and!; [done| |].
  - rewrite filter_rows_dropna by done. by apply wf_dropna.
  - unfold filter_rows at 1. by rewrite Hna.
Qed.

Lemma filter_rows_postcondition_witness :
  any_isna (filter_rows feature_table_with_nulls) = false
  ∧ wf (filter_rows feature_table_with_nulls)
  ∧ filter_rows (filter_rows feature_table_with_nulls)
    = filter_rows feature_table_with_nulls.
Proof. apply filter_rows_postcondition. unfold wf. compute_done. Defined.

(** The "rows skipped" warning is shown exactly when the filtering drops at
    least one row. *)
Theorem warning_iff_row_dropped df :
  wf df →
  any_isna df = true
  ↔ (length (index (filter_rows df)) < length (index df))%nat.
Proof.
  intros Hwf. split.
  - intros Hna. unfold filter_rows. rewrite Hna. unfold dropna; cbn [index].
    rewrite length_take_rows by apply kept_positions_lt.
    unfold any_isna in Hna. apply existsb_exists in Hna as ([k s] & Hin & Hs).
    apply existsb_exists in Hs as (c & Hc & Hnull); simpl in *.
    apply list_elem_of_In, list_elem_of_lookup in Hc as [i Hi].
    apply list_elem_of_In in Hin.
    assert (i < length (index df))%nat as Hlt.
    { rewrite <- (wf_column_length df k s) by done. by eapply lookup_lt_Some. }
    eapply Nat.lt_le_trans with (length (seq 0 (length (index df))));
      [|by rewrite length_seq].
    apply length_filter_lt with i; [apply elem_of_seq; lia|].
    intros Hrow. apply existsb_false in Hrow. unfold row_cells in Hrow.
    apply Forall_fmap in Hrow.
    pose proof (proj1 (list.Forall_forall _ _) Hrow _ Hin) as Hcell.
    simpl in Hcell. unfold cell_of in Hcell. rewrite Hi in Hcell. simpl in Hcell.
    congruence.
  - intros Hlt. destruct (any_isna df) eqn:Hna; [done|].
    unfold filter_rows in Hlt. rewrite Hna in Hlt. lia.
Qed.

Lemma warning_iff_row_dropped_witness :
  any_isna feature_table_with_nulls = true
  ↔ (length (index (filter_rows feature_table_with_nulls))
     < length (index feature_table_with_nulls))%nat.
Proof. apply warning_iff_row_dropped. unfold wf. compute_done. Defined.

(** ** The script as a whole *)

Lemma enriched_has_features cols (raw : string → Series) k :
  k ∈ SELECTED_FEATS →
  is_Some (col_lookup k (apply_writes (reverse (engine_log raw)) cols)).
Proof. intros Hk. unfold SELECTED_FEATS in Hk. each_member Hk; engine_column; eauto. Qed.

Lemma empty_no_rows df : columns df ≠ [] → empty df = true ↔ index df = [].
Proof.
  unfold empty. destruct (index df), (columns df); naive_solver.
Qed.

Lemma take_rows_app_l {A} (ps : list nat) (l k : list A) :
  Forall (λ p, p < length l)%nat ps → take_rows ps (l ++ k) = take_rows ps l.
Proof.
  unfold take_rows. induction 1 as [|p ps Hp _ IH]; [done|]. csimpl.
  by rewrite IH, lookup_app_l.
Qed.

Lemma sublist_take_rows {A} (P : nat → Prop) `{!∀ i, Decision (P i)} (l : list A) :
  sublist (take_rows (filter P (seq 0 (length l))) l) l.
Proof.
  induction l as [|x l IH] using rev_ind; [done|].
  replace (length (l ++ [x])) with (S (length l))
    by (rewrite length_app; simpl; lia).
  rewrite seq_S, list.filter_app; simpl.
  unfold take_rows at 1. rewrite omap_app. apply sublist_app.
  - fold (take_rows (filter P (seq 0 (length l))) (l ++ [x])).
    rewrite take_rows_app_l by apply kept_positions_lt. exact IH.
  - rewrite list.filter_cons, list.filter_nil.
    destruct (decide (P (length l))); simpl; [|apply sublist_nil_l].
    by rewrite list_lookup_middle.
Qed.

(** Lines 172-197 on a rectangular table with unique row labels that has
    every raw column, whatever its cells hold: no exception escapes.  The
    run halts with "no analyzable rows" exactly when the filtering leaves
    no row, and does so before the model file is looked at; otherwise it
    halts with "model file not found" when the file is missing, and else
    ends with the model's predictions for the surviving rows and a
    rectangular table that has those rows' labels, a sub-list of the
    sheet's, and the enriched table's columns. *)
Theorem app_outcome df (model : option (DataFrame → list string)) :
  wf df → NoDup (index df) →
  (∀ k, k ∈ raw_fields → is_Some (col_lookup k (columns df))) →
  ∃ enriched model_input out_df,
    compute_ratios df = (enriched, Ok tt)
    ∧ select SELECTED_FEATS enriched = Ok model_input
    ∧ loc (index (filter_rows model_input)) enriched = Ok out_df
    ∧ index out_df = index (filter_rows model_input)
    ∧ sublist (index out_df) (index df)
    ∧ fst <$> columns out_df = fst <$> columns enriched
    ∧ wf out_df
    ∧ app model df
      = (if decide (index (filter_rows model_input) = [])
         then Stopped (any_isna model_input) NO_ROWS
         else match model with
              | None => Stopped (any_isna model_input) NO_MODEL
              | Some predict =>
                  Predicted (any_isna model_input) out_df
                            (predict (filter_rows model_input))
              end).
Proof.
  intros Hwf Hnd [raw Hraw]%present_raw_columns.
  pose proof (compute_ratios_enriched df raw Hraw) as Hrun.
  set (enriched := mkDF _ _) in Hrun.
  assert (wf enriched) as Hwfe.
  { destruct (compute_ratios_rectangular (length (index df)) df) as [[Hidx Hcols] _];
      [by split|].
    rewrite Hrun in Hidx, Hcols. by unfold wf. }
  destruct (select_columns_ok SELECTED_FEATS (columns enriched)) as [r Hr].
  { apply list.Forall_forall. intros k Hk. by apply enriched_has_features. }
  assert (select SELECTED_FEATS enriched = Ok (mkDF (index df) r)) as Hsel.
  { unfold select. by rewrite Hr. }
  destruct (select_spec _ _ _ Hwfe Hsel) as (_ & Hnames & Hwfm).
  set (mi := mkDF (index df) r) in *.
  set (kept := filter (λ i, existsb isna (row_cells (columns mi) i) = false)
                      (seq 0 (length (index mi)))).
  assert (Forall (λ p, p < length (index enriched))%nat kept) as Hkept
    by apply kept_positions_lt.
  assert (index (filter_rows mi) = take_rows kept (index enriched)) as Hidx.
  { by rewrite filter_rows_dropna. }
  pose proof (loc_take enriched kept Hnd Hkept) as Hloc. rewrite <- Hidx in Hloc.
  eexists enriched, mi, _. split_and!; [done|done|exact Hloc|done| | | |].
  - cbn [index]. rewrite Hidx. apply (sublist_take_rows _ (index df)).
  - cbn [columns]. rewrite <- list_fmap_compose. by apply list_fmap_ext.
  - unfold wf; cbn [index columns]. rewrite Hidx, length_take_rows by done.
    apply Forall_fmap, list.Forall_forall. intros [k s] Hin; simpl.
    apply length_take_rows. by rewrite (wf_column_length enriched k s).
  - unfold app. rewrite Hrun. cbv beta iota. rewrite Hsel. cbv beta iota zeta.
    rewrite Hloc.
    assert (columns (filter_rows mi) ≠ []) as Hcols.
    { rewrite filter_rows_dropna by done. unfold dropna; cbn [columns].
      intros Hnil%fmap_nil_inv. unfold mi in Hnil, Hnames; cbn [columns] in Hnil, Hnames.
      rewrite Hnil in Hnames. vm_compute in Hnames. discriminate. }
    pose proof (empty_no_rows _ Hcols) as Hempty.
    destruct (decide (index (filter_rows mi) = [])) as [Hnone|Hsome].
    + by rewrite (proj2 Hempty Hnone).
    + destruct (empty (filter_rows mi)); [by destruct Hsome; apply Hempty|].
      by destruct model.
Qed.

Lemma app_outcome_witness :
  ∃ enriched model_input out_df,
    compute_ratios sample_with_infinities = (enriched, Ok tt)
    ∧ select SELECTED_FEATS enriched = Ok model_input
    ∧ loc (index (filter_rows model_input)) enriched = Ok out_df
    ∧ index out_df = index (filter_rows model_input)
    ∧ sublist (index out_df) (index sample_with_infinities)
    ∧ fst <$> columns out_df = fst <$> columns enriched
    ∧ wf out_df
    ∧ app (Some constant_model) sample_with_infinities
      = (if decide (index (filter_rows model_input) = [])
         then Stopped (any_isna model_input) NO_ROWS
         else Predicted (any_isna model_input) out_df
                        (constant_model (filter_rows model_input))).
Proof.
  apply (app_outcome sample_with_infinities (Some constant_model)).
  - unfold wf. compute_done.
  - compute_done.
  - intros k Hk. each_member Hk; by eexists.
Defined.

(** A row whose Altman score is ∞ − ∞ has a null feature: it is skipped
    with the warning, and the other two rows are predicted. *)
Example infinite_row_is_skipped :
  ∃ out_df, app (Some constant_model) sample_with_infinities
            = Predicted true out_df ["Olumlu"; "Olumlu"]
            ∧ index out_df = [1; 2]%nat.
Proof. eexists. split; [by vm_compute|reflexivity]. Qed.

(** ** From the sheet to the table *)

Section read_sheet_facts.
Variable strip : string → string.

Lemma mask_columns_cons (b : bool) mask kv cols :
  mask_columns (b :: mask) (kv :: cols)
  = if b then kv :: mask_columns mask cols else mask_columns mask cols.
Proof.
  unfold mask_columns; cbn [zip zip_with]. rewrite list.filter_cons. by destruct b.
Qed.

Lemma first_kept_cons seen k s cols :
  mask_columns (negb <$> duplicated_from seen ((k, s) :: cols).*1) ((k, s) :: cols)
  = if decide (k ∈ seen)
    then mask_columns (negb <$> duplicated_from (k :: seen) cols.*1) cols
    else (k, s) :: mask_columns (negb <$> duplicated_from (k :: seen) cols.*1) cols.
Proof.
  cbn [fmap list_fmap duplicated_from fst]. rewrite mask_columns_cons.
  destruct (decide (k ∈ seen)).
  - by rewrite bool_decide_eq_true_2.
  - by rewrite bool_decide_eq_false_2.
Qed.

Lemma col_lookup_first_kept k seen cols :
  col_lookup k (mask_columns (negb <$> duplicated_from seen cols.*1) cols)
  = if decide (k ∈ seen) then None else col_lookup k cols.
Proof.
  revert seen. induction cols as [|[k' s] cols IH]; intros seen.
  - by destruct (decide _).
  - rewrite first_kept_cons.
    destruct (decide (k' ∈ seen)) as [Hseen|Hnew]; cbn [col_lookup]; rewrite ?IH;
      destruct (String.eqb_spec k k') as [->|Hne].
    + by rewrite !decide_True by (rewrite ?elem_of_cons; auto).
    + destruct (decide (k ∈ seen)) as [Hk|Hk].
      * by rewrite decide_True by (rewrite ?elem_of_cons; auto).
      * by rewrite decide_False by (rewrite ?elem_of_cons; intuition auto).
    + by rewrite decide_False.
    + destruct (decide (k ∈ seen)) as [Hk|Hk].
      * by rewrite decide_True by (rewrite ?elem_of_cons; auto).
      * by rewrite decide_False by (rewrite ?elem_of_cons; intuition auto).
Qed.

Lemma names_first_kept seen cols :
  NoDup (mask_columns (negb <$> duplicated_from seen cols.*1) cols).*1
  ∧ ∀ k, k ∈ seen →
         k ∉ (mask_columns (negb <$> duplicated_from seen cols.*1) cols).*1.
Proof.
  revert seen. induction cols as [|[k' s] cols IH]; intros seen.
  - split; [constructor|]. intros k _. apply not_elem_of_nil.
  - rewrite first_kept_cons. destruct (IH (k' :: seen)) as [Hnd Hseen].
    destruct (decide (k' ∈ seen)) as [Hk'|Hk'].
    + split; [done|]. intros k Hk. apply Hseen. by right.
    + rewrite fmap_cons. split.
      * constructor; [|done]. apply Hseen. left.
      * intros k Hk. rewrite not_elem_of_cons. split.
        -- by intros ->.
        -- apply Hseen. by right.
Qed.

Lemma columns_first_kept seen cols :
  mask_columns (negb <$> duplicated_from seen cols.*1) cols ⊆ cols.
Proof.
  revert seen. induction cols as [|[k' s] cols IH]; intros seen; [done|].
  rewrite first_kept_cons. intros kv Hkv.
  destruct (decide (k' ∈ seen)).
  - right. by apply (IH (k' :: seen)).
  - apply elem_of_cons in Hkv as [->|Hkv]; [left|right]. by apply (IH (k' :: seen)).
Qed.

(** The table the script builds from a sheet is rectangular, its rows are
    numbered 0, 1, ... (one per record of the sheet, so the labels are
    unique), and no two of its columns have the same name. *)
Theorem read_sheet_table (raw_vert : Sheet) :
  sheet_ok raw_vert →
  index (read_sheet strip raw_vert) = seq 0 (n_values raw_vert)
  ∧ NoDup (index (read_sheet strip raw_vert))
  ∧ NoDup (columns (read_sheet strip raw_vert)).*1
  ∧ wf (read_sheet strip raw_vert).
Proof.
  intros Hok. unfold read_sheet, duplicated.
  set (cols := (λ kv, (strip kv.1, kv.2)) <$> lines raw_vert).
  change (strip_columns strip (transpose raw_vert))
    with (mkDF (seq 0 (n_values raw_vert)) cols).
  unfold loc_columns; cbn [columns index]. split_and!.
  - done.
  - apply NoDup_seq.
  - apply names_first_kept.
  - unfold wf; cbn [index columns]. rewrite length_seq.
    apply list.Forall_forall. intros kv Hkv%columns_first_kept.
    apply list_elem_of_fmap in Hkv as ([k s] & -> & Hin).
    by apply (proj1 (list.Forall_forall _ _) Hok (k, s)).
Qed.

(** A column of that table holds the values of the first line of the sheet
    whose label, stripped, is the column's name; later lines with that
    label are dropped, and a name no line has is not a column. *)
Theorem read_sheet_first_line (raw_vert : Sheet) (k : string) :
  col_lookup k (columns (read_sheet strip raw_vert))
  = (λ p, p.2.2) <$> list_find (λ kv, strip kv.1 = k) (lines raw_vert).
Proof.
  unfold read_sheet, duplicated.
  set (cols := (λ kv, (strip kv.1, kv.2)) <$> lines raw_vert).
  change (strip_columns strip (transpose raw_vert))
    with (mkDF (seq 0 (n_values raw_vert)) cols).
  unfold loc_columns; cbn [columns index].
  rewrite col_lookup_first_kept, decide_False by apply not_elem_of_nil.
  unfold cols. induction (lines raw_vert) as [|[k' s] l IH]; [done|].
  cbn [fmap list_fmap col_lookup fst snd list_find].
  destruct (String.eqb_spec k (strip k')) as [->|Hne].
  - by rewrite decide_True.
  - rewrite decide_False by done. rewrite IH.
    by destruct (list_find _ l) as [[i [k'' s']]|].
Qed.

End read_sheet_facts.

Lemma read_sheet_table_witness :
  index (read_sheet strip_blanks sample_sheet) = seq 0 (n_values sample_sheet)
  ∧ NoDup (index (read_sheet strip_blanks sample_sheet))
  ∧ NoDup (columns (read_sheet strip_blanks sample_sheet)).*1
  ∧ wf (read_sheet strip_blanks sample_sheet).
Proof. apply read_sheet_table. unfold sheet_ok. compute_done. Defined.

Example read_sample_sheet :
  read_sheet strip_blanks sample_sheet
  = mkDF [0; 1]%nat [ ("Stoklar", [num 1; num 2]);
                      ("Ticari Borçlar", [num 3; NaN]) ].
Proof. compute_done. Qed.
